(** * rmdp.py: occupancy-frequency engine of the robust MDP class [MDP]

    A shallow embedding of [src/rmdp.py].  Numbers are rationals ([Q]): the
    development reasons in exact arithmetic, and only where the source
    divides by a count or a sum that can be zero does it keep numpy's
    non-finite values.
    Arrays are lists, taken to have the shapes the docstrings give them;
    the errors that depend on values (an index out of range, a size that
    does not fit a reshape, an empty sequence) are part of the embedding.
    The collaborators whose code is not part of the repository (the Gurobi
    optimiser, [np.linalg.inv], [np.random.rand]) are explicit arguments. *)

From Stdlib Require Import String.
From Stdlib Require Import List ZArith QArith Qabs Qminmax Lqa Lia Bool.
Import ListNotations.
Open Scope Q_scope.

(** ** Python exceptions *)

Inductive exn : Set :=
| ValueError
| AssertionError
| IndexError
| LinAlgError
| ZeroDivisionError
| GurobiError.

Inductive result (A : Type) : Type :=
| Return (a : A)
| Raise (e : exn).

Arguments Return {A} a.
Arguments Raise {A} e.

Definition bind {A B : Type} (r : result A) (k : A -> result B) : result B :=
  match r with
  | Return a => k a
  | Raise e => Raise e
  end.

Notation "x <- r ;; k" := (bind r (fun x => k))
  (at level 61, r at next level, right associativity).
Notation "' p <- r ;; k" := (bind r (fun p => k))
  (at level 61, p pattern, r at next level, right associativity).

(** [assert cond] *)
Definition assert (cond : bool) : result unit :=
  if cond then Return tt else Raise AssertionError.

(** Monadic traversal of a list, left to right (a Python [for] loop that may
    raise in its body and collects one value per iteration). *)
Fixpoint mapM {A B : Type} (f : A -> result B) (l : list A) : result (list B) :=
  match l with
  | [] => Return []
  | a :: t => b <- f a ;; bs <- mapM f t ;; Return (b :: bs)
  end.

(** A loop that threads an accumulator and may raise. *)
Fixpoint foldM {A B : Type} (f : B -> A -> result B) (l : list A) (acc : B)
  : result B :=
  match l with
  | [] => Return acc
  | a :: t => acc' <- f acc a ;; foldM f t acc'
  end.

(** ** The part of numpy the class uses *)

Module np.

(** A float64 as far as the class can tell finite from non-finite values. *)
Inductive float : Set :=
| Finite (q : Q)
| PosInf
| NegInf
| NaN.

Abbreviation vector := (list Q).
Abbreviation matrix := (list (list Q)).

Definition zeros (n : nat) : vector := repeat 0 n.
Definition zeros2 (n m : nat) : matrix := repeat (zeros m) n.
Definition zeros3 (n m k : nat) : list matrix := repeat (zeros2 m k) n.

(** [np.sum(v)] *)
Definition sum (v : vector) : Q := fold_right Qplus 0 v.

(** [x @ y] on two vectors *)
Definition dot (x y : vector) : Q :=
  sum (map (fun p => fst p * snd p) (combine x y)).

(** [M[i, :]] and [M[:, j]] for indices in range *)
Definition row (i : nat) (M : matrix) : vector := nth i M [].
Definition col (j : nat) (M : matrix) : vector :=
  map (fun r => nth j r 0) M.

(** [M.T] for a matrix with [m] columns *)
Definition transpose (m : nat) (M : matrix) : matrix :=
  map (fun j => col j M) (seq 0 m).

(** [v @ M]: one entry per column of [M] (which has [m] columns) *)
Definition vecmat (m : nat) (v : vector) (M : matrix) : vector :=
  map (fun j => dot v (col j M)) (seq 0 m).

(** [M @ v]: one entry per row of [M] *)
Definition matvec (M : matrix) (v : vector) : vector :=
  map (fun r => dot r v) M.

(** [np.sum(M, axis=1)]: the sum of every row *)
Definition sum_axis1 (M : matrix) : vector := map sum M.

(** [np.eye(n)] *)
Definition eye (n : nat) : matrix :=
  map (fun i => map (fun j => if Nat.eqb i j then 1 else 0) (seq 0 n))
      (seq 0 n).

(** [M[idx]] with a sequence of row indices: IndexError out of range *)
Definition take (M : matrix) (idx : list nat) : result matrix :=
  mapM (fun i => match nth_error M i with
                 | Some r => Return r
                 | None => Raise IndexError
                 end) idx.

(** [l[i] = v] for [i] in range *)
Fixpoint setitem {A : Type} (i : nat) (v : A) (l : list A) : list A :=
  match l, i with
  | [], _ => []
  | _ :: t, O => v :: t
  | x :: t, S i' => x :: setitem i' v t
  end.

(** [l[start : start+len(vals)] = vals] for a slice in range *)
Definition setslice (start : nat) (vals : vector) (l : vector) : vector :=
  firstn start l ++ vals ++ skipn (start + length vals) l.

(** [np.argmax(v)]: the first index of a largest entry; ValueError on an
    empty sequence. *)
Fixpoint argmax_from (best_i : nat) (best : Q) (i : nat) (v : vector) : nat :=
  match v with
  | [] => best_i
  | x :: t =>
      if Qle_bool x best
      then argmax_from best_i best (S i) t
      else argmax_from i x (S i) t
  end.

Definition argmax (v : vector) : result nat :=
  match v with
  | [] => Raise ValueError
  | x :: t => Return (argmax_from 0 x 1 t)
  end.

(** [x / y] on floats with a finite numerator and denominator: numpy warns
    and yields nan or an infinity on a zero denominator, it does not raise. *)
Definition true_divide (x y : Q) : float :=
  if Qeq_bool y 0
  then match x ?= 0 with
       | Eq => NaN
       | Gt => PosInf
       | Lt => NegInf
       end
  else Finite (x / y).

(** [M.reshape(n*m, order="F")] of an [n] x [m] matrix: column-major, entry
    [(i, j)] lands at [j*n + i]. *)
Definition flatten_F {A : Type} (d : A) (n m : nat) (M : list (list A))
  : list A :=
  flat_map (fun j => map (fun i => nth j (nth i M []) d) (seq 0 n)) (seq 0 m).

(** [v.reshape((n, m), order="F")]: ValueError unless [v] has [n*m]
    entries *)
Definition reshape_F {A : Type} (d : A) (n m : nat) (v : list A)
  : result (list (list A)) :=
  if Nat.eqb (length v) (n * m)
  then Return (map (fun i => map (fun j => nth (j * n + i) v d) (seq 0 m))
                   (seq 0 n))
  else Raise ValueError.

(** [c * v], [x - y] and [x + y] on vectors, [c * M] and [X - Y] on
    matrices of one shape *)
Definition scale (c : Q) (v : vector) : vector := map (Qmult c) v.
Definition sub (x y : vector) : vector :=
  map (fun p => fst p - snd p) (combine x y).
Definition mscale (c : Q) (M : matrix) : matrix := map (scale c) M.
Definition msub (X Y : matrix) : matrix :=
  map (fun p => sub (fst p) (snd p)) (combine X Y).

(** [np.vstack(arrays)]: ValueError when there is nothing to stack *)
Definition vstack (arrays : list matrix) : result matrix :=
  match arrays with
  | [] => Raise ValueError
  | _ => Return (concat arrays)
  end.

(** [a[i]] resolves a negative index from the end; IndexError outside
    [-n .. n-1]. *)
Definition index (n : nat) (i : Z) : result nat :=
  if ((0 <=? i) && (i <? Z.of_nat n))%Z then Return (Z.to_nat i)
  else if ((- Z.of_nat n <=? i) && (i <? 0))%Z
       then Return (Z.to_nat (i + Z.of_nat n))
       else Raise IndexError.

(** [M[i, j]] and [M[i, j] = v] for indices in range *)
Definition get2 (i j : nat) (M : matrix) : Q := nth j (nth i M []) 0.
Definition set2 {A : Type} (i j : nat) (v : A) (M : list (list A))
  : list (list A) :=
  setitem i (setitem j v (nth i M [])) M.

(** The array as rationals when all its entries are finite. *)
Fixpoint as_finite (v : list float) : option vector :=
  match v with
  | [] => Some []
  | Finite q :: t =>
      match as_finite t with
      | Some qs => Some (q :: qs)
      | None => None
      end
  | _ :: _ => None
  end.

(** [np.linalg.norm(v, ord=np.inf)]: ValueError on an empty vector *)
Definition norm_inf (v : vector) : result Q :=
  match v with
  | [] => Raise ValueError
  | x :: t => Return (fold_left Qmax (map Qabs t) (Qabs x))
  end.

(** The generator behind [np.random]: the numbers it is going to deliver
    and how many were consumed.  [rand] draws from [[0, 1)]. *)
Record RandomState : Type := {
  draws : nat -> Q;
  consumed : nat
}.

(** [np.random.rand(n)] *)
Definition rand (n : nat) (g : RandomState) : vector * RandomState :=
  (map (fun i => draws g (consumed g + i)%nat) (seq 0 n),
   {| draws := draws g; consumed := (consumed g + n)%nat |}).

End np.

(** Python's [x < y] and [x / y] on floats. *)
Definition Qlt_bool (x y : Q) : bool := negb (Qle_bool y x).

Definition py_div (x y : Q) : result Q :=
  if Qeq_bool y 0 then Raise ZeroDivisionError else Return (x / y).

(** ** The part of gurobipy the class uses

    A model is built by adding variables (each with a lower bound), linear
    constraints and an objective; [optimize], which is not code of the
    repository, is an argument of every method that calls it. *)

Module GRB.

Inductive Status : Set :=
| LOADED
| OPTIMAL
| INFEASIBLE
| INF_OR_UNBD
| UNBOUNDED
| NUMERIC.

Definition Status_eqb (a b : Status) : bool :=
  match a, b with
  | LOADED, LOADED | OPTIMAL, OPTIMAL | INFEASIBLE, INFEASIBLE
  | INF_OR_UNBD, INF_OR_UNBD | UNBOUNDED, UNBOUNDED | NUMERIC, NUMERIC => true
  | _, _ => false
  end.

Inductive Sense : Set := MAXIMIZE | MINIMIZE.

End GRB.

Module gp.

Inductive relation : Set := EQUAL | LESS_EQUAL | GREATER_EQUAL.

(** [coeffs . x  rel  rhs]; a variable past the end of [coeffs] has
    coefficient 0. *)
Record Constr : Type := {
  coeffs : np.vector;
  rel : relation;
  rhs : Q
}.

Record Model : Type := {
  ModelName : string;
  (** one lower bound per variable, [None] for [-GRB.INFINITY] *)
  LB : list (option Q);
  Constrs : list Constr;
  Obj : np.vector;
  ModelSense : GRB.Sense
}.

(** What is read back after [model.optimize()]. *)
Record Solution : Type := {
  Status : GRB.Status;
  objVal : Q;
  X : np.vector
}.

(** [gp.Model(name)] *)
Definition Model_ (name : string) : Model :=
  {| ModelName := name; LB := []; Constrs := []; Obj := [];
     ModelSense := GRB.MINIMIZE |}.

(** A variable block is the position of its first variable and its size. *)
Definition MVar : Set := (nat * nat)%type.

(** [model.addMVar(shape=n, lb=lb)] *)
Definition addMVar (n : nat) (lb : option Q) (m : Model) : MVar * Model :=
  ((length (LB m), n),
   {| ModelName := ModelName m; LB := LB m ++ repeat lb n;
      Constrs := Constrs m; Obj := Obj m ++ np.zeros n;
      ModelSense := ModelSense m |}).

(** [model.addVar(lb=lb, obj=obj)] *)
Definition addVar (lb : option Q) (obj : Q) (m : Model) : MVar * Model :=
  ((length (LB m), 1%nat),
   {| ModelName := ModelName m; LB := LB m ++ [lb];
      Constrs := Constrs m; Obj := Obj m ++ [obj];
      ModelSense := ModelSense m |}).

(** The coefficients, over all variables, of [c @ v] for the block [v]. *)
Definition on (v : MVar) (c : np.vector) : np.vector :=
  np.zeros (fst v) ++ firstn (snd v) c.

(** [model.addConstr(...)] with one linear constraint *)
Definition addConstr (c : Constr) (m : Model) : Model :=
  {| ModelName := ModelName m; LB := LB m;
     Constrs := Constrs m ++ [c]; Obj := Obj m;
     ModelSense := ModelSense m |}.

Definition addConstrs (cs : list Constr) (m : Model) : Model :=
  fold_left (fun m c => addConstr c m) cs m.

(** [model.addMConstr(A, x, sense, b)]: one constraint per row of [A] *)
Definition addMConstr (A : np.matrix) (x : MVar) (sense : relation)
           (b : np.vector) (m : Model) : Model :=
  addConstrs
    (map (fun rb => {| coeffs := on x (fst rb); rel := sense; rhs := snd rb |})
         (combine A b)) m.

(** [model.setObjective(expr, sense)] *)
Definition setObjective (expr : np.vector) (sense : GRB.Sense) (m : Model)
  : Model :=
  {| ModelName := ModelName m; LB := LB m; Constrs := Constrs m;
     Obj := expr; ModelSense := sense |}.

(** [v.X]: the values of a block in a solution *)
Definition X_of (v : MVar) (s : Solution) : np.vector :=
  firstn (snd v) (skipn (fst v) (X s)).

(** *** What a linear program means *)

Definition holds (c : Constr) (x : np.vector) : Prop :=
  match rel c with
  | EQUAL => np.dot (coeffs c) x == rhs c
  | LESS_EQUAL => np.dot (coeffs c) x <= rhs c
  | GREATER_EQUAL => rhs c <= np.dot (coeffs c) x
  end.

Definition within (lb : option Q) (x : Q) : Prop :=
  match lb with
  | Some b => b <= x
  | None => True
  end.

Definition feasible (m : Model) (x : np.vector) : Prop :=
  Forall2 within (LB m) x /\ Forall (fun c => holds c x) (Constrs m).

Definition objective (m : Model) (x : np.vector) : Q := np.dot (Obj m) x.

(** [a] is at least as good as [b] for the model's sense. *)
Definition no_worse (m : Model) (a b : Q) : Prop :=
  match ModelSense m with
  | GRB.MAXIMIZE => b <= a
  | GRB.MINIMIZE => a <= b
  end.

(** The solution reports a feasible point, its objective value, and no
    feasible point does better. *)
Definition optimum (m : Model) (s : Solution) : Prop :=
  feasible m (X s) /\
  objVal s == objective m (X s) /\
  forall y, feasible m y -> no_worse m (objVal s) (objective m y).

(** An optimiser is exact on a model when a status of OPTIMAL comes with an
    optimum of that model. *)
Definition exact_on (optimize : Model -> Solution) (m : Model) : Prop :=
  Status (optimize m) = GRB.OPTIMAL -> optimum m (optimize m).

Definition exact (optimize : Model -> Solution) : Prop :=
  forall m, exact_on optimize m.

End gp.

(** ** class MDP *)

(** A demonstration set: trajectories of (state, action) pairs. *)
Abbreviation Trajectory := (list (Z * Z)).
Abbreviation Policy := (list (list np.float)).

Record MDP : Type := {
  num_states : nat;
  num_actions : nat;
  num_features : nat;
  gamma : Q;
  (** [P[s][s'][a]], of size S x S x A *)
  P : list np.matrix;
  p_0 : np.vector;
  reward : np.vector;
  reward_matrix : np.matrix;
  (** of size SA x K *)
  phi : np.matrix;
  phi_matrix : list np.matrix;
  phi_gail : list np.matrix;
  IGammaPAStacked : np.matrix;
  u_E : np.matrix;
  u_E_flat : np.vector;
  opt_policy : Policy;
  opt_return : Q;
  random_return : Q;
  u_rand : np.matrix;
  worst_u : np.matrix;
  worst_return : Q
}.

(** [self.states] and [self.actions] are [np.arange] of the two sizes. *)
Definition states (self : MDP) : list nat := seq 0 (num_states self).
Definition actions (self : MDP) : list nat := seq 0 (num_actions self).

(** Attribute assignments [self.x = v] made after the first method call of
    [__init__]. *)
Definition set_phi_gail (self : MDP) (v : list np.matrix) : MDP :=
  let '(Build_MDP a b c d e f g h i j _ l m n o p q r s t) := self in
  Build_MDP a b c d e f g h i j v l m n o p q r s t.

Definition set_IGammaPAStacked (self : MDP) (v : np.matrix) : MDP :=
  let '(Build_MDP a b c d e f g h i j k _ m n o p q r s t) := self in
  Build_MDP a b c d e f g h i j k v m n o p q r s t.

Definition set_u_E (self : MDP) (v : np.matrix) (flat : np.vector) : MDP :=
  let '(Build_MDP a b c d e f g h i j k l _ _ o p q r s t) := self in
  Build_MDP a b c d e f g h i j k l v flat o p q r s t.

Definition set_opt (self : MDP) (policy : Policy) (ret : Q) : MDP :=
  let '(Build_MDP a b c d e f g h i j k l m n _ _ q r s t) := self in
  Build_MDP a b c d e f g h i j k l m n policy ret q r s t.

Definition set_random (self : MDP) (ret : Q) (u : np.matrix) : MDP :=
  let '(Build_MDP a b c d e f g h i j k l m n o p _ _ s t) := self in
  Build_MDP a b c d e f g h i j k l m n o p ret u s t.

Definition set_worst (self : MDP) (u : np.matrix) (ret : Q) : MDP :=
  let '(Build_MDP a b c d e f g h i j k l m n o p q r _ _) := self in
  Build_MDP a b c d e f g h i j k l m n o p q r u ret.

(** [max(a, b)] of Python: the second argument only when it is larger. *)
Definition py_max (a b : Q) : Q := if Qlt_bool a b then b else a.

(** [compute_phi_gail]: the block written for one action,
    [phi_gail[:, action, range(lo, lo + gail_features)] = phi_s]. *)
Definition assign_action_block (gail_features : nat) (phi_s : np.matrix)
           (phi_gail : list np.matrix) (action : nat) : list np.matrix :=
  map (fun sp =>
         np.setitem action
           (np.setslice (action * gail_features) (snd sp)
                        (nth action (fst sp) []))
           (fst sp))
      (combine phi_gail phi_s).

Definition compute_phi_gail (self : MDP) : result (list np.matrix) :=
  let gail_features := (num_states self * num_actions self)%nat in
  phi_s <- np.take (np.eye (num_states self * num_actions self))
                   (seq 0 (num_states self)) ;;
  let phi_gail :=
    np.zeros3 (num_states self) (num_actions self)
              (num_actions self * gail_features) in
  Return (fold_left (assign_action_block gail_features phi_s)
                    (actions self) phi_gail).

(** [occupancy_freq_to_policy]: the body of its loop over the states, on the
    policy filled so far and the generator. *)
Definition occupancy_freq_to_policy_row (A : nat) (u : np.matrix)
           (sum_u_s : np.vector) (force_deterministic : bool)
           (st : Policy * np.RandomState) (s : nat)
  : result (Policy * np.RandomState) :=
  let (policy, g) := st in
  if force_deterministic then
    i <- np.argmax (np.row s u) ;;
    Return (np.set2 s i (np.Finite 1) policy, g)
  else if Qlt_bool (1 # 10000000000) (nth s sum_u_s 0) then
    Return (np.setitem s
              (map (fun x =>
                      np.Finite
                        (x / py_max (nth s sum_u_s 0) (1 # 10000000000)))
                   (np.row s u))
              policy, g)
  else
    (* if the sum is 0, then we set it to random *)
    let (rand_A_vec, g') := np.rand A g in
    Return (np.setitem s
              (map (fun x => np.true_divide x (np.sum rand_A_vec))
                   rand_A_vec)
              policy, g').

(** [occupancy_freq_to_policy]; [u] is an S x A array. *)
Definition occupancy_freq_to_policy (self : MDP) (u : np.matrix)
           (force_deterministic : bool) (g : np.RandomState)
  : result (Policy * np.RandomState) :=
  let S := num_states self in
  let A := num_actions self in
  let policy : Policy := repeat (repeat (np.Finite 0) A) S in
  let sum_u_s := np.sum_axis1 u in
  foldM (occupancy_freq_to_policy_row A u sum_u_s force_deterministic)
        (seq 0 S) (policy, g).

(** [construct_design_matrix]: [(I - gamma P_a)] stacked over the actions,
    an SA x S matrix. *)
Definition construct_design_matrix (self : MDP) : result np.matrix :=
  let I := np.eye (num_states self) in
  let arrays :=
    fold_left (fun arrays action =>
                 arrays ++
                 [np.msub I (np.mscale (gamma self)
                               (map (map (fun pa => nth action pa 0)) (P self)))])
              (actions self) [] in
  np.vstack arrays.

(** [observed]: the action of the first pair of [D] at [state]. *)
Fixpoint observed (state : Z) (D : list (Z * Z)) : bool * Z :=
  match D with
  | [] => (false, (-1)%Z)
  | (s, a) :: D' => if (state =? s)%Z then (true, a) else observed state D'
  end.

(** [construct_constraint_vector]; [D] is a set of pairs, given in the order
    its iteration yields them. *)
Definition construct_constraint_vector (self : MDP) (D : list (Z * Z))
  : np.vector :=
  let c := np.zeros2 (num_states self) (num_actions self) in
  let c :=
    fold_left
      (fun c state =>
         let '(observed_state, observed_action) :=
           observed (Z.of_nat state) D in
         fold_left
           (fun c action =>
              if observed_state
                 && negb (Z.of_nat action =? observed_action)%Z
              then np.set2 state action 1 c
              else c)
           (actions self) c)
      (states self) c in
  np.flatten_F 0 (num_states self) (num_actions self) c.

(** [enumerate(d)] *)
Definition enumerate {A : Type} (d : list A) : list (nat * A) :=
  combine (seq 0 (length d)) d.

(** [u_hat_all]: the body of the loop over a trajectory,
    [u_hat[s, a] += self.gamma ** t]. *)
Definition u_hat_visit (self : MDP) (u_hat : np.matrix) (tsa : nat * (Z * Z))
  : result np.matrix :=
  let '(t, (s, a)) := tsa in
  i <- np.index (num_states self) s ;;
  j <- np.index (num_actions self) a ;;
  Return (np.set2 i j (np.get2 i j u_hat + Qpower (gamma self) (Z.of_nat t))
                  u_hat).

(** [u_hat_all]: the discounted visit counts, averaged over the
    trajectories. *)
Definition u_hat_all (self : MDP) (D : list Trajectory)
  : result (list (list np.float)) :=
  let u_hat := np.zeros2 (num_states self) (num_actions self) in
  u_hat <-
    foldM (fun u_hat d => foldM (u_hat_visit self) (enumerate d) u_hat)
          D u_hat ;;
  Return (map (map (fun x => np.true_divide x (inject_Z (Z.of_nat (length D)))))
              u_hat).

Section Solvers.

(** [model.optimize()] followed by reading [Status], [objVal] and [X]. *)
Variable optimize : gp.Model -> gp.Solution.

(** [np.linalg.inv]: LinAlgError on a singular matrix. *)
Variable linalg_inv : np.matrix -> result np.matrix.

(** The loop of [solve_putterman_dual_LP_for_Opt_policy] that makes the
    solved [u_flat] non-negative. *)
Definition clamp_negatives (n : nat) (u_flat : np.vector) : np.vector :=
  fold_left (fun u_flat i =>
               if Qlt_bool (nth i u_flat 0) 0
               then np.setitem i 0 u_flat
               else u_flat)
            (seq 0 n) u_flat.

(** The lines the dual LP and the worst-case LP share: variables [u >= 0]
    with [W.T u == p_0]. *)
Definition bellman_flow_model (self : MDP) (method : string)
  : gp.MVar * gp.Model :=
  let a := num_actions self in
  let s := num_states self in
  let W := IGammaPAStacked self in
  let model := gp.Model_ method in
  let '(u, model) := gp.addMVar (s * a) (Some 0) model in
  let model :=
    gp.addMConstr (np.transpose s W) u gp.EQUAL (p_0 self) model in
  (u, model).

(** The model [solve_putterman_dual_LP_for_Opt_policy] hands to the
    optimiser: maximise [r @ u]. *)
Definition dual_LP (self : MDP) : gp.MVar * gp.Model :=
  let '(u, model) := bellman_flow_model self "Dual_LP" in
  (u, gp.setObjective (gp.on u (reward self)) GRB.MAXIMIZE model).

(** The model [solve_worst] hands to the optimiser: minimise [r @ u]. *)
Definition worst_LP (self : MDP) : gp.MVar * gp.Model :=
  let '(u, model) := bellman_flow_model self "Worst" in
  (u, gp.setObjective (gp.on u (reward self)) GRB.MINIMIZE model).

Definition solve_putterman_dual_LP_for_Opt_policy (self : MDP)
  : result (np.matrix * Q) :=
  let a := num_actions self in
  let s := num_states self in
  let gamma := gamma self in
  let '(u, model) := dual_LP self in
  let sol := optimize model in
  if negb (GRB.Status_eqb (gp.Status sol) GRB.OPTIMAL)
  then Raise ValueError
  else
    let dual_return := gp.objVal sol in
    let u_flat := gp.X_of u sol in
    let u_flat := clamp_negatives (s * a) u_flat in
    target <- py_div 1 (1 - gamma) ;;
    _ <- assert (Qlt_bool (np.sum u_flat - target) (1 # 100)) ;;
    u_mat <- np.reshape_F 0 s a u_flat ;;
    Return (u_mat, dual_return).

Definition solve_worst (self : MDP) : result (np.matrix * Q) :=
  let a := num_actions self in
  let s := num_states self in
  let '(u, model) := worst_LP self in
  let sol := optimize model in
  if negb (GRB.Status_eqb (gp.Status sol) GRB.OPTIMAL)
  then Raise ValueError
  else
    let dual_return := gp.objVal sol in
    let u_flat := gp.X_of u sol in
    u_mat <- np.reshape_F 0 s a u_flat ;;
    Return (u_mat, dual_return).

(** [generate_random_policy_return]: the uniformly random policy.  The
    constructor reaches it only with at least one action, so the divisions
    by the number of actions are divisions of rationals. *)
Definition generate_random_policy_return (self : MDP)
  : result (np.matrix * Q) :=
  let A := inject_Z (Z.of_nat (num_actions self)) in
  let P_pi := map (map (fun pa => np.sum pa / A)) (P self) in
  let r_pi := map (fun x => x / A) (np.sum_axis1 (reward_matrix self)) in
  inv <- linalg_inv
           (np.msub (np.eye (num_states self))
                    (np.mscale (gamma self)
                               (np.transpose (num_states self) P_pi))) ;;
  let d_pi := np.matvec inv (p_0 self) in
  let u_rand := np.zeros2 (num_states self) (num_actions self) in
  let u_rand :=
    fold_left (fun u_rand s =>
                 fold_left (fun u_rand a =>
                              np.set2 s a (nth s d_pi 0 * 1 / A) u_rand)
                           (seq 0 (num_actions self)) u_rand)
              (seq 0 (num_states self)) u_rand in
  Return (u_rand, np.dot d_pi r_pi).

(** [MDP.__init__] *)
Definition __init__ (num_states num_actions num_features : nat)
           (P : list np.matrix) (phi : np.matrix) (p_0 : np.vector)
           (gamma : Q) (reward : np.vector) (g : np.RandomState)
  : result (MDP * np.RandomState) :=
  reward_matrix <- np.reshape_F 0 num_states num_actions reward ;;
  phi_matrix <- np.reshape_F [] num_states num_actions phi ;;
  let self :=
    {| num_states := num_states; num_actions := num_actions;
       num_features := num_features; gamma := gamma; P := P; p_0 := p_0;
       reward := reward; reward_matrix := reward_matrix; phi := phi;
       phi_matrix := phi_matrix; phi_gail := []; IGammaPAStacked := [];
       u_E := []; u_E_flat := []; opt_policy := []; opt_return := 0;
       random_return := 0; u_rand := []; worst_u := [];
       worst_return := 0 |} in
  phi_gail <- compute_phi_gail self ;;
  let self := set_phi_gail self phi_gail in
  W <- construct_design_matrix self ;;
  let self := set_IGammaPAStacked self W in
  '(u_E, opt_return) <- solve_putterman_dual_LP_for_Opt_policy self ;;
  let self :=
    set_u_E self u_E (np.flatten_F 0 num_states num_actions u_E) in
  '(opt_policy, g) <- occupancy_freq_to_policy self u_E true g ;;
  let self := set_opt self opt_policy opt_return in
  '(u_rand, rand_return) <- generate_random_policy_return self ;;
  let self := set_random self rand_return u_rand in
  '(u_worst, u_worst_ret) <- solve_worst self ;;
  let self := set_worst self u_worst u_worst_ret in
  Return (self, g).

End Solvers.

Definition pair_eq_dec (x y : Z * Z) : {x = y} + {x <> y}.
Proof. decide equality; apply Z.eq_dec. Defined.

(** [set(itertools.chain.from_iterable(D))]: the distinct pairs of [D]; the
    order in which a Python set is iterated is not specified, this is one. *)
Definition D_flat_of (D : list Trajectory) : list (Z * Z) :=
  nodup pair_eq_dec (concat D).

(** The rows [e_1 .. e_k, -e_1 .. -e_k] of [w_i_mat] when nothing is
    pruned: the extreme points of the L1 ball. *)
Definition extreme_points (k : nat) : np.matrix :=
  fold_left (fun w_i_mat i =>
               np.set2 (i + k) i (- (1)) (np.set2 i i 1 w_i_mat))
            (seq 0 k) (np.zeros2 (k * 2) k).

Section Chebyshev.

Variable optimize : gp.Model -> gp.Solution.

(** The value [eps] takes when the caller's one does not count:
    [norm((u_E - u_hat_all(D)) @ phi, inf) + 1]. *)
Definition default_eps (self : MDP) (D : list Trajectory) : result np.float :=
  let s := num_states self in
  let a := num_actions self in
  let k := num_features self in
  u_hat <- u_hat_all self D ;;
  match np.as_finite (np.flatten_F np.NaN s a u_hat) with
  | Some u_hat_flat =>
      n <- np.norm_inf
             (np.vecmat k (np.sub (np.flatten_F 0 s a (u_E self)) u_hat_flat)
                        (phi self)) ;;
      Return (np.Finite (n + 1))
  | None =>
      (* a nan among the entries makes every entry of the product nan *)
      if Nat.eqb k 0 then Raise ValueError else Return np.NaN
  end.

(** [solve_cheb_part_2] with [prune=False], its default: the inner
    maximisation over the 2K extreme points, then the outer minimisation.
    The pruning variant, which samples its directions with [np.random] and
    [np.quantile], is not part of this development. *)
Definition solve_cheb_part_2 (self : MDP) (D : list Trajectory)
           (add_lin_constr add_linf_constr : bool) (passed_eps : option Q)
  : result (np.float * np.matrix * Q * Q) :=
  let method := "Chebyshev_part_2"%string in
  let s := num_states self in
  let a := num_actions self in
  let phi := phi self in
  let k := num_features self in
  let sa := (s * a)%nat in
  let p_0 := p_0 self in
  let D_flat := D_flat_of D in
  let c := construct_constraint_vector self D_flat in
  let W := IGammaPAStacked self in
  u_hat <- u_hat_all self D ;;
  let u_e_hat := np.as_finite (np.flatten_F np.NaN s a u_hat) in
  let sampled_points := (k * 2)%nat in
  let w_i_mat := extreme_points k in
  (* solve inner maximization problem *)
  let model := gp.Model_ "inner maximization" in
  let '(v, model) := gp.addMVar sa (Some 0) model in
  let model := gp.addMConstr (np.transpose s W) v gp.EQUAL p_0 model in
  let model :=
    if add_lin_constr
    then gp.addConstr
           {| gp.coeffs := gp.on v c; gp.rel := gp.EQUAL; gp.rhs := 0 |} model
    else model in
  (* passed_eps if passed_eps else (...): None and 0.0 are both falsy *)
  eps <- match passed_eps with
         | Some e =>
             if negb (Qeq_bool e 0) then Return (np.Finite e)
             else default_eps self D
         | None => default_eps self D
         end ;;
  model <-
    (if add_linf_constr then
       match u_e_hat, eps with
       | Some u_e_hat, np.Finite eps =>
           let target := np.vecmat k u_e_hat phi in
           let upper :=
             map (fun j =>
                    {| gp.coeffs := gp.on v (np.col j phi);
                       gp.rel := gp.LESS_EQUAL;
                       gp.rhs := eps + nth j target 0 |})
                 (seq 0 k) in
           let lower :=
             map (fun j =>
                    {| gp.coeffs := gp.on v (map Qopp (np.col j phi));
                       gp.rel := gp.LESS_EQUAL;
                       gp.rhs := eps - nth j target 0 |})
                 (seq 0 k) in
           Return (gp.addConstrs lower (gp.addConstrs upper model))
       | _, _ =>
           (* nan in a constraint: gurobipy refuses the array *)
           if Nat.eqb k 0 then Return model else Raise GurobiError
       end
     else Return model) ;;
  max_v_r_i <-
    mapM (fun w_i =>
            let model :=
              gp.setObjective (gp.on v (np.matvec phi w_i)) GRB.MAXIMIZE
                              model in
            let sol := optimize model in
            if negb (GRB.Status_eqb (gp.Status sol) GRB.OPTIMAL)
            then Raise ValueError
            else Return (gp.objVal sol))
         w_i_mat ;;
  (* solve outer minimization problem *)
  let model := gp.Model_ "outer minimization" in
  let '(sigma, model) := gp.addVar (Some 0) 1 model in
  let '(u, model) := gp.addMVar sa (Some 0) model in
  let model :=
    gp.addConstrs
      (map (fun wm =>
              {| gp.coeffs :=
                   (- (1)) :: map Qopp (firstn sa (np.matvec phi (fst wm)));
                 gp.rel := gp.LESS_EQUAL;
                 gp.rhs := - snd wm |})
           (combine w_i_mat max_v_r_i))
      model in
  let model := gp.addMConstr (np.transpose s W) u gp.EQUAL p_0 model in
  let model :=
    gp.addConstr
      {| gp.coeffs := gp.on u c; gp.rel := gp.EQUAL; gp.rhs := 0 |} model in
  let model := gp.setObjective (gp.on sigma [1]) GRB.MINIMIZE model in
  let sol := optimize model in
  if negb (GRB.Status_eqb (gp.Status sol) GRB.OPTIMAL)
  then Raise ValueError
  else
    let radius := gp.objVal sol in
    let u_flat := gp.X_of u sol in
    target <- py_div 1 (1 - gamma self) ;;
    _ <- assert (Qlt_bool (np.sum u_flat - target) (1 # 100)) ;;
    u_mat <- np.reshape_F 0 s a u_flat ;;
    Return (eps, u_mat, radius, np.dot u_flat (reward self)).

End Chebyshev.

(** ** Shapes and entries of arrays, as the statements below read them *)

(** [t] is an array of shape (S, A, n). *)
Definition shape3 (S A n : nat) (t : list np.matrix) : Prop :=
  length t = S /\
  forall s, (s < S)%nat ->
    length (nth s t []) = A /\
    forall a, (a < A)%nat -> length (nth a (nth s t []) []) = n.

(** [M] is an array of shape (S, A). *)
Definition shape2 {T : Type} (S A : nat) (M : list (list T)) : Prop :=
  length M = S /\ forall s, (s < S)%nat -> length (nth s M []) = A.




(** [u], flattened column-major, lies in the Bellman-flow polytope of the
    model: [u >= 0] and [W.T u = p_0]. *)
Definition flow_feasible (self : MDP) (u : np.vector) : Prop :=
  length u = (num_states self * num_actions self)%nat /\
  Forall (Qle 0) u /\
  forall s', (s' < num_states self)%nat ->
    np.dot (np.col s' (IGammaPAStacked self)) u == nth s' (p_0 self) 0.

(** A valid model: [P] is S x S x A with every [P[s, :, a]] summing to 1,
    [p_0] has S entries summing to 1, the discount is in [[0, 1)], and
    [IGammaPAStacked] is the design matrix of these parameters. *)
Definition valid_model (self : MDP) : Prop :=
  shape3 (num_states self) (num_states self) (num_actions self) (P self) /\
  (forall s a, (s < num_states self)%nat -> (a < num_actions self)%nat ->
     np.sum (map (fun pa => nth a pa 0) (nth s (P self) [])) == 1) /\
  length (p_0 self) = num_states self /\
  np.sum (p_0 self) == 1 /\
  0 <= gamma self /\ gamma self < 1 /\
  construct_design_matrix self = Return (IGammaPAStacked self).

(** [m[s, a]] of an array of floats *)
Definition float_at (m : list (list np.float)) (s a : nat) : np.float :=
  nth a (nth s m []) np.NaN.

(** The weight a visit adds to entry (s, a): [gamma ** t] when the pair,
    with its indices resolved as numpy does, is (s, a). *)
Definition visit_weight (self : MDP) (s a : nat) (tsa : nat * (Z * Z)) : Q :=
  match np.index (num_states self) (fst (snd tsa)),
        np.index (num_actions self) (snd (snd tsa)) with
  | Return i, Return j =>
      if Nat.eqb i s && Nat.eqb j a
      then Qpower (gamma self) (Z.of_nat (fst tsa)) else 0
  | _, _ => 0
  end.

(** Both indices of a visit can be resolved. *)
Definition visit_in_bounds (self : MDP) (tsa : nat * (Z * Z)) : bool :=
  match np.index (num_states self) (fst (snd tsa)),
        np.index (num_actions self) (snd (snd tsa)) with
  | Return _, Return _ => true
  | _, _ => false
  end.

(** The estimator in the words of the design document: every trajectory
    contributes [gamma^t] at the pair it visits at time step [t], and the
    total is averaged over the number of trajectories. *)
Definition discounted_visits (gamma : Q) (d : Trajectory) (s a : nat) : Q :=
  np.sum (map (fun tsa : nat * (Z * Z) =>
                 if ((fst (snd tsa) =? Z.of_nat s)
                     && (snd (snd tsa) =? Z.of_nat a))%Z
                 then Qpower gamma (Z.of_nat (fst tsa)) else 0)
              (enumerate d)).

Definition empiricalOccupancy (gamma : Q) (D : list Trajectory) (s a : nat)
  : Q :=
  np.sum (map (fun d => discounted_visits gamma d s a) D)
  / inject_Z (Z.of_nat (length D)).

(** Every pair of the demonstrations is a state and an action of the MDP. *)
Definition pairs_of_mdp (self : MDP) (D : list Trajectory) : Prop :=
  forall d sa, In d D -> In sa d ->
    (0 <= fst sa < Z.of_nat (num_states self))%Z /\
    (0 <= snd sa < Z.of_nat (num_actions self))%Z.

(** [t[s, a, j]] *)
Definition get3 (t : list np.matrix) (s a j : nat) : Q :=
  nth j (nth a (nth s t []) []) 0.

(** ** Concrete objects for the examples *)

(** An object with its sizes and discount set and every array empty. *)
Definition blank_MDP (S A K : nat) (gamma : Q) : MDP :=
  {| num_states := S; num_actions := A; num_features := K; gamma := gamma;
     P := []; p_0 := []; reward := []; reward_matrix := []; phi := [];
     phi_matrix := []; phi_gail := []; IGammaPAStacked := []; u_E := [];
     u_E_flat := []; opt_policy := []; opt_return := 0; random_return := 0;
     u_rand := []; worst_u := []; worst_return := 0 |}.

(** A generator that always delivers 0.5, and one that delivers 0.25 first
    and 0.75 from then on. *)
Definition constant_half : np.RandomState :=
  {| np.draws := fun _ => 1 # 2; np.consumed := 0 |}.

(** A generator whose every draw is exactly 0.0, the one value of [[0, 1)]
    that a draw cannot be normalised from. *)
Definition constant_zero : np.RandomState :=
  {| np.draws := fun _ => 0; np.consumed := 0 |}.

Definition quarter_then_three_quarters : np.RandomState :=
  {| np.draws := fun i => match i with O => 1 # 4 | _ => 3 # 4 end;
     np.consumed := 0 |}.

(** [np.linalg.inv] on 1 x 1 matrices. *)
Definition inv_1x1 (M : np.matrix) : result np.matrix :=
  match M with
  | [[x]] => if Qeq_bool x 0 then Raise LinAlgError else Return [[1 / x]]
  | _ => Raise LinAlgError
  end.

(** An optimiser for the programs of a model with one state and one action:
    it reports [u] for the occupancy variable (and 0 for [sigma] when the
    program has that variable in front), whatever the objective. *)
Definition answer_with (u : Q) (m : gp.Model) : gp.Solution :=
  match gp.LB m with
  | [_] =>
      {| gp.Status := GRB.OPTIMAL; gp.objVal := np.dot (gp.Obj m) [u];
         gp.X := [u] |}
  | [_; _] =>
      {| gp.Status := GRB.OPTIMAL; gp.objVal := np.dot (gp.Obj m) [0; u];
         gp.X := [0; u] |}
  | _ => {| gp.Status := GRB.NUMERIC; gp.objVal := 0; gp.X := [] |}
  end.

(** An optimiser for a model with one state and two self-looping actions,
    discount 1/2: all mass on the first action when maximising, on the
    second when minimising. *)
Definition two_action_optimize (m : gp.Model) : gp.Solution :=
  match gp.ModelSense m with
  | GRB.MAXIMIZE =>
      {| gp.Status := GRB.OPTIMAL; gp.objVal := np.dot (gp.Obj m) [2; 0];
         gp.X := [2; 0] |}
  | GRB.MINIMIZE =>
      {| gp.Status := GRB.OPTIMAL; gp.objVal := np.dot (gp.Obj m) [0; 2];
         gp.X := [0; 2] |}
  end.

(** The object [__init__] returns, or an empty one if it raises. *)
Definition constructed (r : result (MDP * np.RandomState)) : MDP :=
  match r with
  | Return (self, _) => self
  | Raise _ => blank_MDP 0 0 0 0
  end.

(** One state, one action that loops, discount 1/2, reward 1. *)
Definition one_pair_MDP : MDP :=
  Eval vm_compute in
    constructed (__init__ (answer_with 2) inv_1x1 1 1 1 [[[1]]] [[1]] [1]
                          (1 # 2) [1] constant_half).

(** One state, two actions that loop, discount 1/2, reward 1 for the first
    action only. *)
Definition two_action_MDP : MDP :=
  Eval vm_compute in
    constructed (__init__ two_action_optimize inv_1x1 1 2 1 [[[1; 1]]]
                          [[1]; [0]] [1] (1 # 2) [1; 0] constant_half).

(** One state, one action that loops, discount 0.99999, reward 1. *)
Definition near_one_MDP : MDP :=
  Eval vm_compute in
    constructed (__init__ (answer_with 100000) inv_1x1 1 1 1 [[[1]]] [[1]]
                          [1] (99999 # 100000) [1] constant_half).


(** * Properties *)

(** ** Lists updated by index *)

Lemma length_setitem {A : Type} (i : nat) (v : A) (l : list A) :
  length (np.setitem i v l) = length l.
Proof.
  revert i; induction l as [|x l IH]; intros [|i]; simpl; auto.
Qed.

Lemma nth_setitem_same {A : Type} (i : nat) (v d : A) (l : list A) :
  (i < length l)%nat -> nth i (np.setitem i v l) d = v.
Proof.
  revert i; induction l as [|x l IH]; intros [|i] Hi; simpl in *;
    try lia; auto.
  apply IH; lia.
Qed.

Lemma nth_setitem_other {A : Type} (i j : nat) (v d : A) (l : list A) :
  i <> j -> nth j (np.setitem i v l) d = nth j l d.
Proof.
  revert i j; induction l as [|x l IH]; intros [|i] [|j] Hij; simpl;
    try congruence; auto.
Qed.

Lemma nth_setitem {A : Type} (i j : nat) (v d : A) (l : list A) :
  (i < length l)%nat ->
  nth j (np.setitem i v l) d = if Nat.eqb i j then v else nth j l d.
Proof.
  intros Hi. destruct (Nat.eqb_spec i j) as [->|Hne].
  - now apply nth_setitem_same.
  - now apply nth_setitem_other.
Qed.

Lemma length_setslice (start : nat) (vals l : np.vector) :
  (start + length vals <= length l)%nat ->
  length (np.setslice start vals l) = length l.
Proof.
  intros H. unfold np.setslice.
  rewrite !length_app, length_firstn, length_skipn. lia.
Qed.

Lemma nth_setslice (start j : nat) (vals l : np.vector) (d : Q) :
  (start + length vals <= length l)%nat ->
  nth j (np.setslice start vals l) d =
  if (start <=? j)%nat && (j <? start + length vals)%nat
  then nth (j - start) vals d
  else nth j l d.
Proof.
  intros H. unfold np.setslice.
  assert (Hf : length (firstn start l) = start)
    by (rewrite length_firstn; lia).
  destruct (Nat.leb_spec start j) as [Hle|Hlt]; simpl.
  - rewrite app_nth2 by lia. rewrite Hf.
    destruct (Nat.ltb_spec j (start + length vals)) as [Hin|Hout].
    + rewrite app_nth1 by lia. reflexivity.
    + rewrite app_nth2 by lia. rewrite nth_skipn. f_equal. lia.
  - rewrite app_nth1 by lia.
    rewrite nth_firstn. destruct (Nat.ltb_spec j start); [reflexivity|lia].
Qed.

(** ** compute_phi_gail *)

Lemma mapM_total {A B : Type} (f : A -> result B) (g : A -> B) (l : list A) :
  (forall a, In a l -> f a = Return (g a)) ->
  mapM f l = Return (map g l).
Proof.
  induction l as [|a l IH]; intros H; simpl; [reflexivity|].
  rewrite (H a) by (left; reflexivity). simpl.
  rewrite IH by (intros; apply H; right; assumption). reflexivity.
Qed.

Lemma take_in_range (M : np.matrix) (idx : list nat) :
  (forall i, In i idx -> (i < length M)%nat) ->
  np.take M idx = Return (map (fun i => nth i M []) idx).
Proof.
  intros H. unfold np.take. apply mapM_total. intros i Hi.
  destruct (nth_error M i) as [r|] eqn:E.
  - now rewrite (nth_error_nth _ _ _ E).
  - apply nth_error_None in E. specialize (H i Hi). lia.
Qed.

Lemma length_eye (n : nat) : length (np.eye n) = n.
Proof. unfold np.eye. now rewrite length_map, length_seq. Qed.

Lemma nth_map_seq {A : Type} (f : nat -> A) (n i : nat) (d : A) :
  (i < n)%nat -> nth i (map f (seq 0 n)) d = f i.
Proof.
  intros Hi. rewrite (nth_indep _ d (f 0%nat)) by
    (now rewrite length_map, length_seq).
  rewrite map_nth, seq_nth by assumption. reflexivity.
Qed.

Lemma nth_map_lt {A B : Type} (f : A -> B) (l : list A) (i : nat)
      (d' : B) (d : A) :
  (i < length l)%nat -> nth i (map f l) d' = f (nth i l d).
Proof.
  revert i; induction l as [|x l IH]; intros [|i] Hi; simpl in *;
    try lia; auto.
  apply IH; lia.
Qed.

Lemma eye_entry (n i j : nat) :
  (i < n)%nat -> (j < n)%nat ->
  nth j (nth i (np.eye n) []) 0 = if Nat.eqb i j then 1 else 0.
Proof.
  intros Hi Hj. unfold np.eye.
  rewrite (nth_map_seq _ n i []) by assumption.
  now rewrite (nth_map_seq _ n j 0) by assumption.
Qed.

Lemma eye_row_length (n i : nat) :
  (i < n)%nat -> length (nth i (np.eye n) []) = n.
Proof.
  intros Hi. unfold np.eye.
  rewrite (nth_map_seq _ n i []) by assumption.
  now rewrite length_map, length_seq.
Qed.

Lemma nth_repeat_lt {A : Type} (x d : A) (n i : nat) :
  (i < n)%nat -> nth i (repeat x n) d = x.
Proof.
  revert i; induction n as [|n IH]; intros [|i] Hi; simpl; try lia; auto.
  apply IH; lia.
Qed.

Lemma zeros3_shape (S A n : nat) : shape3 S A n (np.zeros3 S A n).
Proof.
  unfold shape3, np.zeros3, np.zeros2, np.zeros. split.
  - apply repeat_length.
  - intros s Hs. rewrite nth_repeat_lt by assumption. split.
    + apply repeat_length.
    + intros a Ha. rewrite nth_repeat_lt by assumption. apply repeat_length.
Qed.

Lemma nth_repeat_ge {A : Type} (x d : A) (n i : nat) :
  (n <= i)%nat -> nth i (repeat x n) d = d.
Proof. intros H. apply nth_overflow. now rewrite repeat_length. Qed.

Lemma zeros3_entry (S A n s a j : nat) :
  get3 (np.zeros3 S A n) s a j = 0.
Proof.
  unfold get3, np.zeros3, np.zeros2, np.zeros.
  destruct (Nat.lt_ge_cases s S) as [Hs|Hs].
  2:{ rewrite (nth_repeat_ge _ _ S s) by assumption. now destruct a, j. }
  rewrite nth_repeat_lt by assumption.
  destruct (Nat.lt_ge_cases a A) as [Ha|Ha].
  2:{ rewrite (nth_repeat_ge _ _ A a) by assumption. now destruct j. }
  rewrite nth_repeat_lt by assumption.
  destruct (Nat.lt_ge_cases j n) as [Hj|Hj].
  - now rewrite nth_repeat_lt.
  - now rewrite nth_repeat_ge.
Qed.

(** One iteration of the loop over the actions writes [phi_s] into the
    block of [action] and leaves the rest of the tensor alone. *)
Lemma assign_action_block_spec (S A gf : nat) (phi_s : np.matrix)
      (t : list np.matrix) (action : nat) :
  shape3 S A (A * gf) t ->
  length phi_s = S ->
  (forall s, (s < S)%nat -> length (nth s phi_s []) = gf) ->
  (action < A)%nat ->
  shape3 S A (A * gf) (assign_action_block gf phi_s t action) /\
  forall s a j, (s < S)%nat -> (a < A)%nat ->
    get3 (assign_action_block gf phi_s t action) s a j =
    if Nat.eqb a action && (action * gf <=? j)%nat
       && (j <? action * gf + gf)%nat
    then nth (j - action * gf) (nth s phi_s []) 0
    else get3 t s a j.
Proof.
  intros [Hlen Hsh] Hphi Hrows Hact.
  assert (Hnth : forall s, (s < S)%nat ->
            nth s (assign_action_block gf phi_s t action) [] =
            np.setitem action
              (np.setslice (action * gf) (nth s phi_s [])
                           (nth action (nth s t []) []))
              (nth s t [])).
  { intros s Hs. unfold assign_action_block.
    rewrite nth_map_lt with (d := ([], [])) by (rewrite length_combine; lia).
    rewrite combine_nth by lia. reflexivity. }
  assert (Hfit : forall s, (s < S)%nat ->
            (action * gf + length (nth s phi_s [])
             <= length (nth action (nth s t []) []))%nat).
  { intros s Hs. rewrite (Hrows s Hs).
    destruct (Hsh s Hs) as [_ Hr]. rewrite (Hr action Hact). nia. }
  split.
  - split.
    + unfold assign_action_block.
      rewrite length_map, length_combine. lia.
    + intros s Hs. rewrite (Hnth s Hs). destruct (Hsh s Hs) as [HA Hr].
      split; [now rewrite length_setitem|].
      intros a Ha. rewrite nth_setitem by lia.
      destruct (Nat.eqb_spec action a) as [<-|_]; [|now apply Hr].
      rewrite length_setslice by now apply Hfit. now apply Hr.
  - intros s a j Hs Ha. unfold get3 at 1. rewrite (Hnth s Hs).
    destruct (Hsh s Hs) as [HA Hr].
    rewrite nth_setitem by lia. rewrite (Nat.eqb_sym a action).
    destruct (Nat.eqb_spec action a) as [<-|_]; simpl; [|reflexivity].
    rewrite nth_setslice by now apply Hfit.
    now rewrite (Hrows s Hs).
Qed.

(** After the first [n] actions of the loop, exactly their blocks are
    written. *)
Lemma phi_gail_loop (S A gf : nat) (phi_s : np.matrix) (n : nat) :
  length phi_s = S ->
  (forall s, (s < S)%nat -> length (nth s phi_s []) = gf) ->
  (n <= A)%nat ->
  let t := fold_left (assign_action_block gf phi_s) (seq 0 n)
                     (np.zeros3 S A (A * gf)) in
  shape3 S A (A * gf) t /\
  forall s a j, (s < S)%nat -> (a < A)%nat ->
    get3 t s a j =
    if (a <? n)%nat && (a * gf <=? j)%nat && (j <? a * gf + gf)%nat
    then nth (j - a * gf) (nth s phi_s []) 0
    else 0.
Proof.
  intros Hphi Hrows. induction n as [|n IH]; intros Hn; cbv zeta.
  - simpl. split; [apply zeros3_shape|]. intros. apply zeros3_entry.
  - rewrite seq_S, fold_left_app. simpl.
    destruct IH as [Hsh Hent]; [lia|].
    destruct (assign_action_block_spec S A gf phi_s _ n Hsh Hphi Hrows)
      as [Hsh' Hent']; [lia|].
    split; [exact Hsh'|].
    intros s a j Hs Ha. rewrite (Hent' s a j Hs Ha), (Hent s a j Hs Ha).
    destruct (Nat.eqb_spec a n) as [->|Hne].
    + rewrite Nat.ltb_irrefl.
      replace (n <? Datatypes.S n)%nat with true
        by (symmetry; apply Nat.ltb_lt; lia).
      simpl. reflexivity.
    + simpl. destruct (Nat.ltb_spec a n), (Nat.ltb_spec a (Datatypes.S n));
        try lia; reflexivity.
Qed.

(** C8: the GAIL feature tensor has shape S x A x (A*S*A), and
    [phi_gail[s, a, :]] is one-hot: 1 at index [a*(S*A) + s], which lies in
    the S*A-sized block of action [a], and 0 at every other index; distinct
    (s, a) pairs select distinct indices.  (With no action and at least one
    state, [np.eye(0)[range(S)]] raises instead.) *)
Theorem phi_gail_one_hot_blocks (self : MDP) :
  (0 < num_actions self)%nat ->
  exists phi_gail,
    compute_phi_gail self = Return phi_gail /\
    shape3 (num_states self) (num_actions self)
           (num_actions self * (num_states self * num_actions self))
           phi_gail /\
    (forall s a j,
        (s < num_states self)%nat -> (a < num_actions self)%nat ->
        (j < num_actions self * (num_states self * num_actions self))%nat ->
        get3 phi_gail s a j =
        if Nat.eqb j (a * (num_states self * num_actions self) + s)
        then 1 else 0) /\
    (forall s a,
        (s < num_states self)%nat -> (a < num_actions self)%nat ->
        (a * (num_states self * num_actions self)
         <= a * (num_states self * num_actions self) + s
         < (a + 1) * (num_states self * num_actions self))%nat /\
        ((a + 1) * (num_states self * num_actions self)
         <= num_actions self * (num_states self * num_actions self))%nat) /\
    (forall s a s' a',
        (s < num_states self)%nat -> (a < num_actions self)%nat ->
        (s' < num_states self)%nat -> (a' < num_actions self)%nat ->
        (a * (num_states self * num_actions self) + s
         = a' * (num_states self * num_actions self) + s')%nat ->
        s = s' /\ a = a').
Proof.
  intros HA. unfold compute_phi_gail.
  set (S := num_states self). set (A := num_actions self).
  assert (HSA : (S <= S * A)%nat) by nia.
  rewrite take_in_range
    by (intros i Hi; apply in_seq in Hi; rewrite length_eye; lia).
  simpl bind.
  set (phi_s := map (fun i => nth i (np.eye (S * A)) []) (seq 0 S)).
  assert (Hlen : length phi_s = S)
    by (unfold phi_s; now rewrite length_map, length_seq).
  assert (Hrow : forall s, (s < S)%nat ->
            nth s phi_s [] = nth s (np.eye (S * A)) [])
    by (intros s Hs; unfold phi_s; now rewrite nth_map_seq).
  assert (Hrows : forall s, (s < S)%nat ->
            length (nth s phi_s []) = (S * A)%nat)
    by (intros s Hs; rewrite (Hrow s Hs); apply eye_row_length; lia).
  destruct (phi_gail_loop S A (S * A) phi_s A Hlen Hrows (le_n A))
    as [Hshape Hentry].
  eexists. split; [reflexivity|]. split; [exact Hshape|].
  split; [|split].
  - intros s a j Hs Ha Hj. unfold actions. fold A.
    rewrite (Hentry s a j Hs Ha).
    replace (a <? A)%nat with true by (symmetry; now apply Nat.ltb_lt).
    simpl.
    destruct (Nat.leb_spec (a * (S * A)) j) as [Hlo|Hlo]; simpl.
    + destruct (Nat.ltb_spec j (a * (S * A) + S * A)) as [Hhi|Hhi].
      * rewrite (Hrow s Hs), eye_entry by lia.
        destruct (Nat.eqb_spec s (j - a * (S * A))),
                 (Nat.eqb_spec j (a * (S * A) + s)); try lia; reflexivity.
      * destruct (Nat.eqb_spec j (a * (S * A) + s)); [nia|reflexivity].
    + destruct (Nat.eqb_spec j (a * (S * A) + s)); [lia|reflexivity].
  - intros s a Hs Ha. nia.
  - intros s a s' a' Hs Ha Hs' Ha' E.
    assert (a = a') by nia. subst a'. split; [lia|reflexivity].
Qed.

(** The tensor of a model with two states and two actions. *)
Lemma phi_gail_one_hot_blocks_witness :
  exists phi_gail,
    compute_phi_gail (blank_MDP 2 2 1 (1 # 2)) = Return phi_gail /\
    get3 phi_gail 1 1 5 = 1 /\ get3 phi_gail 1 1 1 = 0.
Proof.
  destruct (phi_gail_one_hot_blocks (blank_MDP 2 2 1 (1 # 2)))
    as (t & Hret & _ & Hent & _); [simpl; lia|].
  exists t. split; [exact Hret|].
  split.
  - apply (Hent 1%nat 1%nat 5%nat); simpl; lia.
  - apply (Hent 1%nat 1%nat 1%nat); simpl; lia.
Defined.

(** ** Matrices updated entry by entry *)

Lemma shape2_zeros2 (S A : nat) : shape2 S A (np.zeros2 S A).
Proof.
  unfold shape2, np.zeros2, np.zeros. split; [apply repeat_length|].
  intros s Hs. rewrite nth_repeat_lt by assumption. apply repeat_length.
Qed.

Lemma get2_zeros2 (S A s a : nat) : np.get2 s a (np.zeros2 S A) = 0.
Proof.
  unfold np.get2, np.zeros2, np.zeros.
  destruct (Nat.lt_ge_cases s S) as [Hs|Hs].
  2:{ rewrite (nth_repeat_ge _ _ S s) by assumption. now destruct a. }
  rewrite nth_repeat_lt by assumption.
  destruct (Nat.lt_ge_cases a A) as [Ha|Ha].
  - now rewrite nth_repeat_lt.
  - now rewrite nth_repeat_ge.
Qed.

Lemma shape2_set2 {T : Type} (S A i j : nat) (v : T) (M : list (list T)) :
  shape2 S A M -> shape2 S A (np.set2 i j v M).
Proof.
  intros [Hlen Hrows]. unfold np.set2. split.
  - now rewrite length_setitem.
  - intros s Hs. destruct (Nat.eq_dec i s) as [->|Hne].
    + rewrite nth_setitem_same by lia. rewrite length_setitem. now apply Hrows.
    + rewrite nth_setitem_other by assumption. now apply Hrows.
Qed.

Lemma nth2_set2 {T : Type} (S A i j i' j' : nat) (v d : T)
      (M : list (list T)) :
  shape2 S A M -> (i < S)%nat -> (j < A)%nat ->
  nth j' (nth i' (np.set2 i j v M) []) d =
  if Nat.eqb i i' && Nat.eqb j j' then v else nth j' (nth i' M []) d.
Proof.
  intros [Hlen Hrows] Hi Hj. unfold np.set2.
  destruct (Nat.eqb_spec i i') as [<-|Hne]; simpl.
  - rewrite nth_setitem_same by lia.
    apply nth_setitem. rewrite (Hrows i Hi). exact Hj.
  - now rewrite nth_setitem_other.
Qed.

Lemma get2_set2 (S A i j i' j' : nat) (v : Q) (M : np.matrix) :
  shape2 S A M -> (i < S)%nat -> (j < A)%nat ->
  np.get2 i' j' (np.set2 i j v M) =
  if Nat.eqb i i' && Nat.eqb j j' then v else np.get2 i' j' M.
Proof. intros. unfold np.get2. now apply (nth2_set2 S A). Qed.

(** A loop over the columns of row [s] that writes [v] where [f] holds. *)
Lemma mark_row (S A : nat) (f : nat -> bool) (v : Q) (s n : nat)
      (M : np.matrix) :
  shape2 S A M -> (s < S)%nat -> (n <= A)%nat ->
  let M' := fold_left (fun c a => if f a then np.set2 s a v c else c)
                      (seq 0 n) M in
  shape2 S A M' /\
  forall s' a', np.get2 s' a' M' =
                if Nat.eqb s s' && (a' <? n)%nat && f a' then v
                else np.get2 s' a' M.
Proof.
  intros Hsh Hs. induction n as [|n IH]; intros Hn; cbv zeta.
  - simpl. split; [assumption|]. intros s' a'.
    now rewrite andb_false_r.
  - rewrite seq_S, fold_left_app. simpl.
    destruct IH as [Hsh' Hent]; [lia|].
    destruct (f n) eqn:Hf.
    + split; [now apply shape2_set2|]. intros s' a'.
      rewrite (get2_set2 S A) by (assumption || lia). rewrite Hent.
      destruct (Nat.eqb_spec s s') as [<-|Hne]; simpl; [|reflexivity].
      destruct (Nat.eqb_spec n a') as [<-|Hne].
      * rewrite Hf. replace (n <? Datatypes.S n)%nat with true
          by (symmetry; apply Nat.ltb_lt; lia). reflexivity.
      * destruct (Nat.ltb_spec a' n), (Nat.ltb_spec a' (Datatypes.S n));
          try lia; reflexivity.
    + split; [assumption|]. intros s' a'. rewrite Hent.
      destruct (Nat.eqb_spec s s') as [<-|Hne]; simpl; [|reflexivity].
      destruct (Nat.ltb_spec a' n), (Nat.ltb_spec a' (Datatypes.S n));
        try lia; try reflexivity.
      assert (a' = n) by lia. subst a'. simpl. now rewrite Hf.
Qed.

(** The two nested loops: every entry of the first [n] rows is decided by
    [f], the other rows are untouched. *)
Lemma mark_rows (S A : nat) (f : nat -> nat -> bool) (v : Q) (n : nat)
      (M : np.matrix) :
  shape2 S A M -> (n <= S)%nat ->
  let M' := fold_left
              (fun c s =>
                 fold_left (fun c a => if f s a then np.set2 s a v c else c)
                           (seq 0 A) c)
              (seq 0 n) M in
  shape2 S A M' /\
  forall s a, (a < A)%nat ->
    np.get2 s a M' = if (s <? n)%nat && f s a then v else np.get2 s a M.
Proof.
  intros Hsh. induction n as [|n IH]; intros Hn; cbv zeta.
  - simpl. split; [assumption|]. reflexivity.
  - rewrite seq_S, fold_left_app. simpl.
    destruct IH as [Hsh' Hent]; [lia|].
    destruct (mark_row S A (f n) v n A _ Hsh') as [Hsh'' Hent'];
      [lia|lia|].
    split; [exact Hsh''|]. intros s a Ha.
    rewrite Hent', (Hent s a Ha).
    replace (a <? A)%nat with true by (symmetry; now apply Nat.ltb_lt).
    rewrite andb_true_r.
    destruct (Nat.eqb_spec n s) as [<-|Hne]; simpl.
    + replace (n <? Datatypes.S n)%nat with true
        by (symmetry; apply Nat.ltb_lt; lia).
      rewrite Nat.ltb_irrefl. simpl. reflexivity.
    + destruct (Nat.ltb_spec s n), (Nat.ltb_spec s (Datatypes.S n));
        try lia; reflexivity.
Qed.

(** Column-major flattening puts entry (s, a) at position [a*S + s]. *)
Lemma nth_flat_map_blocks {T : Type} (g : nat -> list T) (S : nat) (d : T) :
  (forall j, length (g j) = S) ->
  forall n k a s, (a < n)%nat -> (s < S)%nat ->
    nth (a * S + s) (flat_map g (seq k n)) d = nth s (g (k + a)%nat) d.
Proof.
  intros Hg. induction n as [|n IH]; intros k a s Ha Hs; [lia|].
  simpl. destruct a as [|a].
  - simpl. rewrite app_nth1 by (rewrite Hg; lia). now rewrite Nat.add_0_r.
  - rewrite app_nth2 by (rewrite Hg; simpl; lia). rewrite Hg.
    replace (Datatypes.S a * S + s - S)%nat with (a * S + s)%nat
      by (simpl; lia).
    rewrite IH by lia. f_equal. f_equal. lia.
Qed.

Lemma nth_flatten_F {T : Type} (d : T) (S A s a : nat) (M : list (list T)) :
  (s < S)%nat -> (a < A)%nat ->
  nth (a * S + s) (np.flatten_F d S A M) d = nth a (nth s M []) d.
Proof.
  intros Hs Ha. unfold np.flatten_F.
  rewrite (nth_flat_map_blocks _ S) by
    (intros; now rewrite ?length_map, ?length_seq).
  simpl. now rewrite (nth_map_seq _ S s d).
Qed.

Lemma length_flat_map_blocks {T : Type} (g : nat -> list T) (S : nat) :
  (forall j, length (g j) = S) ->
  forall n k, length (flat_map g (seq k n)) = (n * S)%nat.
Proof.
  intros Hg. induction n as [|n IH]; intros k; simpl; [reflexivity|].
  now rewrite length_app, Hg, IH.
Qed.

Lemma length_flatten_F {T : Type} (d : T) (S A : nat) (M : list (list T)) :
  length (np.flatten_F d S A M) = (S * A)%nat.
Proof.
  unfold np.flatten_F.
  rewrite (length_flat_map_blocks _ S) by
    (intros; now rewrite length_map, length_seq).
  apply Nat.mul_comm.
Qed.

(** ** observed and construct_constraint_vector *)

Lemma fold_left_ext {A B : Type} (f g : B -> A -> B) (l : list A) (b : B) :
  (forall acc x, f acc x = g acc x) -> fold_left f l b = fold_left g l b.
Proof.
  intros H. revert b. induction l as [|x l IH]; intros b; simpl;
    [reflexivity|]. now rewrite H, IH.
Qed.

Lemma observed_true (state a : Z) (D : list (Z * Z)) :
  observed state D = (true, a) -> In (state, a) D.
Proof.
  induction D as [|[s' a'] D IH]; simpl; [discriminate|].
  destruct (Z.eqb_spec state s') as [->|Hne]; intros H.
  - injection H as ->. now left.
  - right. now apply IH.
Qed.

Lemma observed_false (state x : Z) (D : list (Z * Z)) :
  observed state D = (false, x) ->
  x = (-1)%Z /\ forall a, ~ In (state, a) D.
Proof.
  induction D as [|[s' a'] D IH]; simpl.
  - intros H. injection H as <-. split; [reflexivity|]. intros a [].
  - destruct (Z.eqb_spec state s') as [->|Hne]; intros H; [discriminate|].
    destruct (IH H) as [-> Hno]. split; [reflexivity|].
    intros a [E|Hin]; [congruence|]. now apply (Hno a).
Qed.

(** The matrix the two loops of [construct_constraint_vector] leave. *)
Lemma constraint_matrix_entry (self : MDP) (D : list (Z * Z)) (s a : nat) :
  (s < num_states self)%nat -> (a < num_actions self)%nat ->
  nth (a * num_states self + s) (construct_constraint_vector self D) 0 =
  if fst (observed (Z.of_nat s) D)
     && negb (Z.of_nat a =? snd (observed (Z.of_nat s) D))%Z
  then 1 else 0.
Proof.
  intros Hs Ha. unfold construct_constraint_vector.
  rewrite nth_flatten_F by assumption.
  rewrite (fold_left_ext _
             (fun c state =>
                fold_left
                  (fun c action =>
                     if (fun s a =>
                           fst (observed (Z.of_nat s) D)
                           && negb (Z.of_nat a =?
                                    snd (observed (Z.of_nat s) D))%Z)
                          state action
                     then np.set2 state action 1 c else c)
                  (actions self) c))
    by (intros acc x; destruct (observed (Z.of_nat x) D); reflexivity).
  unfold states, actions.
  destruct (mark_rows (num_states self) (num_actions self)
              (fun s a =>
                 fst (observed (Z.of_nat s) D)
                 && negb (Z.of_nat a =? snd (observed (Z.of_nat s) D))%Z)
              1 (num_states self)
              (np.zeros2 (num_states self) (num_actions self))
              (shape2_zeros2 _ _) (le_n _)) as [_ Hent].
  change (nth a (nth s ?M []) 0) with (np.get2 s a M).
  rewrite (Hent s a Ha), get2_zeros2.
  replace (s <? num_states self)%nat with true
    by (symmetry; now apply Nat.ltb_lt).
  reflexivity.
Qed.

(** C5: when every state observed in [D] is observed with exactly one
    action, the constraint vector (entry (s, a) at position [a*S + s]) has 1
    at every action other than the observed one, 0 at the observed action,
    and an all-zero row for a state that is never observed. *)
Theorem constraint_vector_marks_unobserved_actions (self : MDP)
        (D : list (Z * Z)) :
  (forall s a a', In (s, a) D -> In (s, a') D -> a = a') ->
  length (construct_constraint_vector self D)
  = (num_states self * num_actions self)%nat /\
  forall s a, (s < num_states self)%nat -> (a < num_actions self)%nat ->
    (forall a_star, In (Z.of_nat s, a_star) D ->
       nth (a * num_states self + s) (construct_constraint_vector self D) 0
       = if (Z.of_nat a =? a_star)%Z then 0 else 1) /\
    ((forall a_star, ~ In (Z.of_nat s, a_star) D) ->
       nth (a * num_states self + s) (construct_constraint_vector self D) 0
       = 0).
Proof.
  intros Huniq. split.
  - unfold construct_constraint_vector. apply length_flatten_F.
  - intros s a Hs Ha. rewrite (constraint_matrix_entry self D s a Hs Ha).
    destruct (observed (Z.of_nat s) D) as [[|] x] eqn:Hobs; simpl.
    + apply observed_true in Hobs. split.
      * intros a_star Hin. rewrite (Huniq _ _ _ Hin Hobs).
        now destruct (Z.of_nat a =? x)%Z.
      * intros Hnone. now destruct (Hnone x).
    + apply observed_false in Hobs. destruct Hobs as [_ Hnone]. split.
      * intros a_star Hin. now destruct (Hnone a_star).
      * reflexivity.
Qed.

(** State 0 observed with action 1 among three actions, state 1 never. *)
Lemma constraint_vector_marks_unobserved_actions_witness :
  construct_constraint_vector (blank_MDP 2 3 1 (1 # 2)) [(0, 1)]%Z
  = [1; 0; 0; 0; 1; 0] /\
  nth (2 * 2 + 0) (construct_constraint_vector (blank_MDP 2 3 1 (1 # 2))
                                               [(0, 1)]%Z) 0 = 1.
Proof.
  split; [reflexivity|].
  assert (Huniq : forall s a a' : Z,
             In (s, a) [(0, 1)%Z] -> In (s, a') [(0, 1)%Z] -> a = a').
  { intros s a a' [E|[]] [E'|[]]. congruence. }
  destruct (constraint_vector_marks_unobserved_actions
              (blank_MDP 2 3 1 (1 # 2)) [(0, 1)%Z] Huniq) as [_ Hent].
  destruct (Hent 0%nat 2%nat) as [Hobs _]; [simpl; lia|simpl; lia|].
  apply (Hobs 1%Z). now left.
Defined.

(** ** occupancy_freq_to_policy *)













(** The assumption on the generator cannot be dropped: were every draw for
    a row without mass exactly 0.0, the row would be 0.0/0.0. *)
Lemma all_zero_draw_gives_nan_row :
  occupancy_freq_to_policy (blank_MDP 1 2 1 (1 # 2)) [[0; 0]] false
                           constant_zero
  = Return ([[np.NaN; np.NaN]],
            {| np.draws := np.draws constant_zero; np.consumed := 2 |}).
Proof. vm_compute. reflexivity. Qed.

(** ** Two runs of occupancy_freq_to_policy *)

Lemma sum_axis1_nth (u : np.matrix) (s : nat) :
  nth s (np.sum_axis1 u) 0 = np.sum (np.row s u).
Proof.
  unfold np.sum_axis1, np.row.
  change 0 with (np.sum []) at 1. apply map_nth.
Qed.

(** When every listed row has mass, the loop never draws: its result does
    not depend on the generator, which it hands back as it got it. *)
Lemma policy_loop_never_draws (A : nat) (u : np.matrix) (l : list nat) :
  (forall s, In s l -> 1 # 10000000000 < np.sum (np.row s u)) ->
  forall policy, exists policy',
    forall g, foldM (occupancy_freq_to_policy_row A u (np.sum_axis1 u) false)
                    l (policy, g)
              = Return (policy', g).
Proof.
  induction l as [|s l IH]; intros Hmass policy.
  - exists policy. reflexivity.
  - assert (Hbig : Qlt_bool (1 # 10000000000) (nth s (np.sum_axis1 u) 0)
                   = true).
    { rewrite sum_axis1_nth. unfold Qlt_bool. apply negb_true_iff.
      apply not_true_iff_false. intros E. apply Qle_bool_iff in E.
      specialize (Hmass s (or_introl eq_refl)). lra. }
    destruct (IH (fun s' H => Hmass s' (or_intror H))
                 (np.setitem s
                    (map (fun x =>
                            np.Finite
                              (x / py_max (nth s (np.sum_axis1 u) 0)
                                          (1 # 10000000000)))
                         (np.row s u))
                    policy)) as (policy' & Hrun).
    exists policy'. intros g. simpl. rewrite Hbig. simpl. apply Hrun.
Qed.

(** C9: with [force_deterministic=False] the result is not a function of
    [u] alone.  On some [u] with a row of mass at most 1e-10, two runs
    return policies that differ (in an entry, as numbers), because the row
    is a normalised fresh draw and not the uniform row; on every [u] whose
    rows all have mass above 1e-10, any two runs return the same policy. *)
Theorem occupancy_freq_to_policy_two_runs :
  (exists self u g1 g2 policy1 g1' policy2 g2' s a x1 x2,
      np.sum (np.row s u) <= 1 # 10000000000 /\
      occupancy_freq_to_policy self u false g1 = Return (policy1, g1') /\
      occupancy_freq_to_policy self u false g2 = Return (policy2, g2') /\
      nth a (nth s policy1 []) np.NaN = np.Finite x1 /\
      nth a (nth s policy2 []) np.NaN = np.Finite x2 /\
      ~ x1 == x2 /\
      ~ x2 == 1 / inject_Z (Z.of_nat (num_actions self))) /\
  (forall self u g1 g2,
      (forall s, (s < num_states self)%nat ->
                 1 # 10000000000 < np.sum (np.row s u)) ->
      exists policy,
        occupancy_freq_to_policy self u false g1 = Return (policy, g1) /\
        occupancy_freq_to_policy self u false g2 = Return (policy, g2)).
Proof.
  split.
  - exists (blank_MDP 1 2 1 (1 # 2)), [[0; 0]], constant_half,
           quarter_then_three_quarters.
    eexists _, _, _, _, 0%nat, 1%nat, _, _.
    split; [vm_compute; discriminate|].
    split; [vm_compute; reflexivity|].
    split; [vm_compute; reflexivity|].
    split; [vm_compute; reflexivity|].
    split; [vm_compute; reflexivity|].
    split; vm_compute; discriminate.
  - intros self u g1 g2 Hmass. unfold occupancy_freq_to_policy.
    destruct (policy_loop_never_draws (num_actions self) u
                (seq 0 (num_states self))
                (fun s H => Hmass s (proj2 (proj1 (in_seq _ _ _) H)))
                (repeat (repeat (np.Finite 0) (num_actions self))
                        (num_states self))) as (policy & Hrun).
    exists policy. split; apply Hrun.
Qed.

(** ** u_hat_all *)

Lemma index_lt (n : nat) (z : Z) (i : nat) :
  np.index n z = Return i -> (i < n)%nat.
Proof.
  unfold np.index.
  destruct ((0 <=? z) && (z <? Z.of_nat n))%Z eqn:E1.
  - intros H. injection H as <-. apply andb_true_iff in E1. lia.
  - destruct ((- Z.of_nat n <=? z) && (z <? 0))%Z eqn:E2; [|discriminate].
    intros H. injection H as <-. apply andb_true_iff in E2. lia.
Qed.

Lemma index_in_range (n : nat) (z : Z) :
  (0 <= z < Z.of_nat n)%Z -> np.index n z = Return (Z.to_nat z).
Proof.
  intros H. unfold np.index.
  replace ((0 <=? z) && (z <? Z.of_nat n))%Z with true; [reflexivity|].
  symmetry. apply andb_true_iff. lia.
Qed.

Lemma index_raises (n : nat) (z : Z) :
  (forall i, np.index n z <> Return i) -> np.index n z = Raise IndexError.
Proof.
  unfold np.index. intros H.
  destruct ((0 <=? z) && (z <? Z.of_nat n))%Z;
    [now destruct (H _ eq_refl)|].
  destruct ((- Z.of_nat n <=? z) && (z <? 0))%Z;
    [now destruct (H _ eq_refl)|].
  reflexivity.
Qed.

(** One visit adds its weight to one entry, or raises IndexError. *)
Lemma u_hat_visit_spec (self : MDP) (M : np.matrix) (tsa : nat * (Z * Z)) :
  shape2 (num_states self) (num_actions self) M ->
  (visit_in_bounds self tsa = true ->
   exists R, u_hat_visit self M tsa = Return R /\
             shape2 (num_states self) (num_actions self) R /\
             forall s a, np.get2 s a R
                         == np.get2 s a M + visit_weight self s a tsa) /\
  (visit_in_bounds self tsa = false ->
   u_hat_visit self M tsa = Raise IndexError).
Proof.
  intros Hsh. destruct tsa as [t [s' a']].
  unfold visit_in_bounds, visit_weight, u_hat_visit. simpl.
  destruct (np.index (num_states self) s') as [i|e] eqn:Ei.
  - destruct (np.index (num_actions self) a') as [j|e] eqn:Ej.
    + split; [|discriminate]. intros _. simpl. eexists.
      split; [reflexivity|]. apply index_lt in Ei, Ej.
      split; [now apply shape2_set2|]. intros s a.
      rewrite (get2_set2 (num_states self) (num_actions self))
        by assumption.
      destruct (Nat.eqb_spec i s) as [->|_]; simpl; [|ring].
      destruct (Nat.eqb_spec j a) as [->|_]; simpl; ring.
    + split; [discriminate|]. intros _. simpl.
      rewrite index_raises in Ej; [congruence|].
      intros j Hj. congruence.
  - split; [discriminate|]. intros _. simpl.
    rewrite index_raises in Ei; [congruence|].
    intros j Hj. congruence.
Qed.

(** A loop whose every step adds a weight to the entries (or raises) adds
    the sum of the weights (or raises). *)
Lemma foldM_accumulate {X : Type} (S A : nat)
      (f : np.matrix -> X -> result np.matrix)
      (w : nat -> nat -> X -> Q) (ok : X -> bool) :
  (forall M x, shape2 S A M ->
     (ok x = true ->
      exists R, f M x = Return R /\ shape2 S A R /\
                forall s a, np.get2 s a R == np.get2 s a M + w s a x) /\
     (ok x = false -> f M x = Raise IndexError)) ->
  forall l M, shape2 S A M ->
    (forallb ok l = true ->
     exists R, foldM f l M = Return R /\ shape2 S A R /\
               forall s a, np.get2 s a R
                           == np.get2 s a M + np.sum (map (w s a) l)) /\
    (forallb ok l = false -> foldM f l M = Raise IndexError).
Proof.
  intros Hstep. induction l as [|x l IH]; intros M Hsh; simpl.
  - split; [|discriminate]. intros _. exists M.
    split; [reflexivity|]. split; [assumption|]. intros s a. ring.
  - destruct (Hstep M x Hsh) as [Hok Hbad].
    destruct (ok x); simpl.
    + destruct (Hok eq_refl) as (R & HR & HshR & Hent). rewrite HR. simpl.
      destruct (IH R HshR) as [Hall Hnot]. split.
      * intros Hl. destruct (Hall Hl) as (R' & HR' & HshR' & Hent').
        exists R'. split; [exact HR'|]. split; [exact HshR'|].
        intros s a. rewrite Hent', Hent. ring.
      * exact Hnot.
    + split; [discriminate|]. intros _. now rewrite Hbad.
Qed.

(** The weight of a whole trajectory at (s, a), and whether it is in
    bounds. *)
Lemma u_hat_trajectory_spec (self : MDP) (M : np.matrix) (d : Trajectory) :
  shape2 (num_states self) (num_actions self) M ->
  (forallb (visit_in_bounds self) (enumerate d) = true ->
   exists R, foldM (u_hat_visit self) (enumerate d) M = Return R /\
             shape2 (num_states self) (num_actions self) R /\
             forall s a,
               np.get2 s a R
               == np.get2 s a M
                  + np.sum (map (visit_weight self s a) (enumerate d))) /\
  (forallb (visit_in_bounds self) (enumerate d) = false ->
   foldM (u_hat_visit self) (enumerate d) M = Raise IndexError).
Proof.
  intros Hsh.
  apply (foldM_accumulate (num_states self) (num_actions self)
           (u_hat_visit self) (visit_weight self) (visit_in_bounds self));
    [|exact Hsh].
  intros M' x Hsh'. now apply u_hat_visit_spec.
Qed.

(** The accumulation loop of [u_hat_all] over all trajectories. *)
Lemma u_hat_accumulation (self : MDP) (D : list Trajectory) :
  (forallb (fun d => forallb (visit_in_bounds self) (enumerate d)) D = true ->
   exists R,
     foldM (fun u_hat d => foldM (u_hat_visit self) (enumerate d) u_hat) D
           (np.zeros2 (num_states self) (num_actions self)) = Return R /\
     shape2 (num_states self) (num_actions self) R /\
     forall s a,
       np.get2 s a R
       == np.sum (map (fun d =>
                         np.sum (map (visit_weight self s a) (enumerate d)))
                      D)) /\
  (forallb (fun d => forallb (visit_in_bounds self) (enumerate d)) D = false ->
   foldM (fun u_hat d => foldM (u_hat_visit self) (enumerate d) u_hat) D
         (np.zeros2 (num_states self) (num_actions self))
   = Raise IndexError).
Proof.
  destruct (foldM_accumulate (num_states self) (num_actions self)
              (fun u_hat d => foldM (u_hat_visit self) (enumerate d) u_hat)
              (fun s a d =>
                 np.sum (map (visit_weight self s a) (enumerate d)))
              (fun d => forallb (visit_in_bounds self) (enumerate d))
              (fun M d Hsh => u_hat_trajectory_spec self M d Hsh)
              D (np.zeros2 (num_states self) (num_actions self))
              (shape2_zeros2 _ _)) as [Hok Hbad].
  split; [|exact Hbad].
  intros HD. destruct (Hok HD) as (R & HR & Hsh & Hent).
  exists R. split; [exact HR|]. split; [exact Hsh|].
  intros s a. rewrite Hent, get2_zeros2. ring.
Qed.

Lemma sum_app (l1 l2 : list Q) :
  np.sum (l1 ++ l2) == np.sum l1 + np.sum l2.
Proof.
  induction l1 as [|x l1 IH]; simpl; [ring|]. rewrite IH. ring.
Qed.

Lemma inject_nat_pos (n : nat) :
  (0 < n)%nat -> 0 < inject_Z (Z.of_nat n).
Proof.
  intros H. change 0 with (inject_Z 0). rewrite <- Zlt_Qlt. lia.
Qed.

Lemma true_divide_count (x : Q) (n : nat) :
  (0 < n)%nat ->
  np.true_divide x (inject_Z (Z.of_nat n))
  = np.Finite (x / inject_Z (Z.of_nat n)).
Proof.
  intros Hn. unfold np.true_divide.
  replace (Qeq_bool (inject_Z (Z.of_nat n)) 0) with false; [reflexivity|].
  symmetry. apply not_true_iff_false. intros E. apply Qeq_bool_iff in E.
  pose proof (inject_nat_pos n Hn). lra.
Qed.

Lemma float_at_map (S A s a : nat) (f : Q -> np.float) (R : np.matrix) :
  shape2 S A R -> (s < S)%nat -> (a < A)%nat ->
  float_at (map (map f) R) s a = f (np.get2 s a R).
Proof.
  intros [Hlen Hrows] Hs Ha. unfold float_at, np.get2.
  rewrite nth_map_lt with (d := []) by lia.
  rewrite nth_map_lt with (d := 0) by (rewrite Hrows; lia).
  reflexivity.
Qed.

Lemma shape2_map_map {T U : Type} (S A : nat) (f : T -> U)
      (R : list (list T)) :
  shape2 S A R -> shape2 S A (map (map f) R).
Proof.
  intros [Hlen Hrows]. split; [now rewrite length_map|].
  intros s Hs. rewrite nth_map_lt with (d := []) by lia.
  rewrite length_map. now apply Hrows.
Qed.

(** What [u_hat_all] returns on a non-empty demonstration set: it returns
    exactly when every visit is in bounds, and then every entry is the total
    weight of the visits divided by the number of trajectories. *)
Lemma u_hat_all_entries (self : MDP) (D : list Trajectory) :
  D <> [] ->
  (forallb (fun d => forallb (visit_in_bounds self) (enumerate d)) D = true ->
   exists m,
     u_hat_all self D = Return m /\
     shape2 (num_states self) (num_actions self) m /\
     forall s a, (s < num_states self)%nat -> (a < num_actions self)%nat ->
       exists x,
         float_at m s a = np.Finite x /\
         x == np.sum (map (fun d =>
                             np.sum (map (visit_weight self s a)
                                         (enumerate d))) D)
              / inject_Z (Z.of_nat (length D))) /\
  (forallb (fun d => forallb (visit_in_bounds self) (enumerate d)) D = false ->
   u_hat_all self D = Raise IndexError).
Proof.
  intros HD. unfold u_hat_all.
  destruct (u_hat_accumulation self D) as [Hok Hbad]. split.
  - intros Hall. destruct (Hok Hall) as (R & HR & Hsh & Hent).
    rewrite HR. simpl. eexists. split; [reflexivity|].
    split; [now apply shape2_map_map|].
    intros s a Hs Ha.
    rewrite (float_at_map (num_states self) (num_actions self))
      by assumption.
    rewrite true_divide_count by (destruct D; [congruence|simpl; lia]).
    eexists. split; [reflexivity|]. now rewrite Hent.
  - intros Hall. now rewrite (Hbad Hall).
Qed.

Lemma u_hat_all_in_bounds (self : MDP) (D : list Trajectory)
      (m : list (list np.float)) :
  D <> [] -> u_hat_all self D = Return m ->
  forallb (fun d => forallb (visit_in_bounds self) (enumerate d)) D = true.
Proof.
  intros HD Hm. destruct (u_hat_all_entries self D HD) as [_ Hbad].
  destruct (forallb (fun d => forallb (visit_in_bounds self) (enumerate d)) D);
    [reflexivity|].
  rewrite (Hbad eq_refl) in Hm. discriminate.
Qed.

Lemma pairs_of_mdp_in_bounds (self : MDP) (D : list Trajectory) :
  pairs_of_mdp self D ->
  forallb (fun d => forallb (visit_in_bounds self) (enumerate d)) D = true.
Proof.
  intros Hp. apply forallb_forall. intros d Hd.
  apply forallb_forall. intros [t sa] Hin.
  apply in_combine_r in Hin. destruct (Hp d sa Hd Hin) as [Hs Ha].
  unfold visit_in_bounds. simpl.
  now rewrite (index_in_range _ _ Hs), (index_in_range _ _ Ha).
Qed.

Lemma pairs_of_mdp_weight (self : MDP) (D : list Trajectory) (s a : nat) :
  pairs_of_mdp self D ->
  map (fun d => np.sum (map (visit_weight self s a) (enumerate d))) D
  = map (fun d => discounted_visits (gamma self) d s a) D.
Proof.
  intros Hp. apply map_ext_in. intros d Hd. unfold discounted_visits.
  f_equal. apply map_ext_in. intros [t sa] Hin.
  apply in_combine_r in Hin. destruct (Hp d sa Hd Hin) as [Hs Ha].
  unfold visit_weight. simpl.
  rewrite (index_in_range _ _ Hs), (index_in_range _ _ Ha).
  replace (Nat.eqb (Z.to_nat (fst sa)) s) with (fst sa =? Z.of_nat s)%Z
    by (destruct (Z.eqb_spec (fst sa) (Z.of_nat s)),
                 (Nat.eqb_spec (Z.to_nat (fst sa)) s); try lia; reflexivity).
  replace (Nat.eqb (Z.to_nat (snd sa)) a) with (snd sa =? Z.of_nat a)%Z
    by (destruct (Z.eqb_spec (snd sa) (Z.of_nat a)),
                 (Nat.eqb_spec (Z.to_nat (snd sa)) a); try lia; reflexivity).
  reflexivity.
Qed.

(** C6: for non-empty [D1] and [D2] on which the estimator returns, it
    returns on their concatenation, and entry by entry
    [u_hat_all(D1 + D2) = (|D1| u_hat_all(D1) + |D2| u_hat_all(D2))
    / (|D1| + |D2|)] exactly.  In particular, on demonstrations over the
    states and actions of the MDP every trajectory contributes [gamma^t] at
    the pair it visits at step [t], and the total is divided by the number
    of trajectories. *)
Theorem u_hat_all_mixture (self : MDP) :
  (forall D1 D2 m1 m2,
      D1 <> [] -> D2 <> [] ->
      u_hat_all self D1 = Return m1 ->
      u_hat_all self D2 = Return m2 ->
      exists m,
        u_hat_all self (D1 ++ D2) = Return m /\
        forall s a, (s < num_states self)%nat -> (a < num_actions self)%nat ->
          exists x x1 x2,
            float_at m s a = np.Finite x /\
            float_at m1 s a = np.Finite x1 /\
            float_at m2 s a = np.Finite x2 /\
            x == (inject_Z (Z.of_nat (length D1)) * x1
                  + inject_Z (Z.of_nat (length D2)) * x2)
                 / (inject_Z (Z.of_nat (length D1))
                    + inject_Z (Z.of_nat (length D2)))) /\
  (forall D,
      D <> [] -> pairs_of_mdp self D ->
      exists m,
        u_hat_all self D = Return m /\
        forall s a, (s < num_states self)%nat -> (a < num_actions self)%nat ->
          exists x, float_at m s a = np.Finite x /\
                    x == empiricalOccupancy (gamma self) D s a).
Proof.
  split.
  - intros D1 D2 m1 m2 H1 H2 Hm1 Hm2.
    pose proof (u_hat_all_in_bounds self D1 m1 H1 Hm1) as Hb1.
    pose proof (u_hat_all_in_bounds self D2 m2 H2 Hm2) as Hb2.
    assert (H12 : D1 ++ D2 <> [])
      by (destruct D1; [congruence|discriminate]).
    destruct (u_hat_all_entries self (D1 ++ D2) H12) as [Hok _].
    assert (Hb12 : forallb (fun d => forallb (visit_in_bounds self)
                                             (enumerate d)) (D1 ++ D2)
                   = true)
      by (rewrite forallb_app, Hb1, Hb2; reflexivity).
    destruct (Hok Hb12) as (m & Hm & _ & Hent).
    destruct (u_hat_all_entries self D1 H1) as [Hok1 _].
    destruct (Hok1 Hb1) as (m1' & Hm1' & _ & Hent1).
    destruct (u_hat_all_entries self D2 H2) as [Hok2 _].
    destruct (Hok2 Hb2) as (m2' & Hm2' & _ & Hent2).
    assert (m1' = m1) by congruence. assert (m2' = m2) by congruence.
    subst m1' m2'.
    exists m. split; [exact Hm|]. intros s a Hs Ha.
    destruct (Hent s a Hs Ha) as (x & Hx & Ex).
    destruct (Hent1 s a Hs Ha) as (x1 & Hx1 & Ex1).
    destruct (Hent2 s a Hs Ha) as (x2 & Hx2 & Ex2).
    exists x, x1, x2. repeat (split; [assumption|]).
    rewrite Ex, Ex1, Ex2, map_app, sum_app, length_app, Nat2Z.inj_add,
      inject_Z_plus.
    assert (0 < inject_Z (Z.of_nat (length D1)))
      by (apply inject_nat_pos; destruct D1; [congruence|simpl; lia]).
    assert (0 < inject_Z (Z.of_nat (length D2)))
      by (apply inject_nat_pos; destruct D2; [congruence|simpl; lia]).
    field. repeat split; lra.
  - intros D HD Hp.
    destruct (u_hat_all_entries self D HD) as [Hok _].
    destruct (Hok (pairs_of_mdp_in_bounds self D Hp))
      as (m & Hm & _ & Hent).
    exists m. split; [exact Hm|]. intros s a Hs Ha.
    destruct (Hent s a Hs Ha) as (x & Hx & Ex).
    exists x. split; [exact Hx|].
    unfold empiricalOccupancy.
    now rewrite <- (pairs_of_mdp_weight self D s a Hp).
Qed.

(** C10: on the empty demonstration set the estimator raises nothing and
    returns an S x A array whose every entry is nan (0.0 / 0), which is not
    the zero matrix; on a non-empty set every entry it returns is a
    number. *)
Theorem u_hat_all_empty_is_nan (self : MDP) :
  (exists m,
      u_hat_all self [] = Return m /\
      shape2 (num_states self) (num_actions self) m /\
      (forall s a, (s < num_states self)%nat -> (a < num_actions self)%nat ->
                   float_at m s a = np.NaN) /\
      ((0 < num_states self)%nat -> (0 < num_actions self)%nat ->
       m <> map (map np.Finite)
                (np.zeros2 (num_states self) (num_actions self)))) /\
  (forall D m,
      D <> [] -> u_hat_all self D = Return m ->
      forall s a, (s < num_states self)%nat -> (a < num_actions self)%nat ->
        exists x, float_at m s a = np.Finite x).
Proof.
  split.
  - unfold u_hat_all. simpl. eexists. split; [reflexivity|].
    split; [apply shape2_map_map, shape2_zeros2|].
    assert (Hnan : forall s a,
               (s < num_states self)%nat -> (a < num_actions self)%nat ->
               float_at
                 (map (map (fun x => np.true_divide x (inject_Z 0)))
                      (np.zeros2 (num_states self) (num_actions self)))
                 s a = np.NaN).
    { intros s a Hs Ha.
      rewrite (float_at_map (num_states self) (num_actions self))
        by (assumption || apply shape2_zeros2).
      now rewrite get2_zeros2. }
    split; [exact Hnan|].
    intros HS HA E.
    specialize (Hnan 0%nat 0%nat HS HA). rewrite E in Hnan.
    rewrite (float_at_map (num_states self) (num_actions self)) in Hnan
      by (assumption || apply shape2_zeros2).
    discriminate.
  - intros D m HD Hm s a Hs Ha.
    destruct (u_hat_all_entries self D HD) as [Hok _].
    destruct (Hok (u_hat_all_in_bounds self D m HD Hm))
      as (m' & Hm' & _ & Hent).
    assert (m' = m) by congruence. subst m'.
    destruct (Hent s a Hs Ha) as (x & Hx & _). now exists x.
Qed.

(** Three visits in one trajectory, then a second set with one visit. *)
Lemma u_hat_all_mixture_witness :
  exists m x,
    u_hat_all (blank_MDP 2 2 1 (1 # 2))
              ([[(0, 1); (1, 0); (0, 1)]] ++ [[(1, 1)]])%Z = Return m /\
    float_at m 0 1 = np.Finite x /\
    x == (1 * (5 # 4) + 1 * 0) / (1 + 1).
Proof.
  destruct (proj1 (u_hat_all_mixture (blank_MDP 2 2 1 (1 # 2)))
              [[(0, 1); (1, 0); (0, 1)]]%Z [[(1, 1)]]%Z
              [[np.Finite (0 / 1); np.Finite ((0 + 1 + (1 # 2) ^ 2) / 1)];
               [np.Finite ((0 + (1 # 2) ^ 1) / 1); np.Finite (0 / 1)]]
              [[np.Finite (0 / 1); np.Finite (0 / 1)];
               [np.Finite (0 / 1); np.Finite ((0 + 1) / 1)]])
    as (m & Hm & Hent); try discriminate; try reflexivity.
  destruct (Hent 0%nat 1%nat) as (x & x1 & x2 & Hx & Hx1 & Hx2 & E);
    [simpl; lia|simpl; lia|].
  exists m, x. split; [exact Hm|]. split; [exact Hx|].
  injection Hx1 as <-. injection Hx2 as <-. rewrite E. reflexivity.
Defined.

(** ** The Bellman-flow program *)

Lemma addConstrs_Constrs (cs : list gp.Constr) (m : gp.Model) :
  gp.Constrs (gp.addConstrs cs m) = gp.Constrs m ++ cs.
Proof.
  unfold gp.addConstrs. revert m.
  induction cs as [|c cs IH]; intros m; simpl.
  - now rewrite app_nil_r.
  - rewrite IH. simpl. now rewrite <- app_assoc.
Qed.

Lemma addConstrs_LB (cs : list gp.Constr) (m : gp.Model) :
  gp.LB (gp.addConstrs cs m) = gp.LB m.
Proof.
  unfold gp.addConstrs. revert m.
  induction cs as [|c cs IH]; intros m; simpl; [reflexivity|].
  now rewrite IH.
Qed.

Lemma combine_firstn_l {A B : Type} (n : nat) (c : list A) (x : list B) :
  (length x <= n)%nat -> combine (firstn n c) x = combine c x.
Proof.
  revert c x. induction n as [|n IH]; intros c x Hx.
  - destruct x; [|simpl in Hx; lia]. now destruct c.
  - destruct c as [|a c]; [reflexivity|].
    destruct x as [|b x]; [reflexivity|]. simpl.
    f_equal. apply IH. simpl in Hx. lia.
Qed.

Lemma dot_firstn (n : nat) (c x : list Q) :
  (length x <= n)%nat -> np.dot (firstn n c) x = np.dot c x.
Proof. intros H. unfold np.dot. now rewrite combine_firstn_l. Qed.

Lemma within_nonneg (n : nat) (x : list Q) :
  Forall2 gp.within (repeat (Some 0) n) x <->
  length x = n /\ Forall (Qle 0) x.
Proof.
  revert x. induction n as [|n IH]; intros x; simpl.
  - split.
    + intros H. inversion H. split; [reflexivity|constructor].
    + intros [H _]. destruct x; [constructor|discriminate].
  - split.
    + intros H. inversion H as [|b y l l' Hw Hrest]; subst.
      apply IH in Hrest. destruct Hrest as [Hlen Hall]. simpl.
      split; [now rewrite Hlen|]. constructor; assumption.
    + intros [Hlen Hall]. destruct x as [|y x]; [discriminate|].
      inversion Hall; subst. constructor; [assumption|].
      apply IH. split; [simpl in Hlen; lia|assumption].
Qed.

(** The constraints and bounds [bellman_flow_model] builds describe the
    Bellman-flow polytope. *)
Lemma bellman_flow_model_feasible (self : MDP) (method : string)
      (u : np.vector) :
  length (p_0 self) = num_states self ->
  gp.feasible (snd (bellman_flow_model self method)) u <->
  flow_feasible self u.
Proof.
  intros Hp0. unfold bellman_flow_model, gp.feasible, flow_feasible.
  simpl. unfold gp.addMConstr.
  rewrite addConstrs_LB, addConstrs_Constrs. simpl.
  rewrite within_nonneg.
  set (S := num_states self) in *. set (n := (S * num_actions self)%nat).
  set (W := IGammaPAStacked self).
  assert (Hlen : length (combine (np.transpose S W) (p_0 self)) = S).
  { rewrite length_combine. unfold np.transpose.
    rewrite length_map, length_seq. lia. }
  split.
  - intros [[Hu Hnn] Hc]. split; [exact Hu|]. split; [exact Hnn|].
    intros s' Hs'. rewrite Forall_forall in Hc.
    specialize (Hc {| gp.coeffs := gp.on (0%nat, n) (np.col s' W);
                      gp.rel := gp.EQUAL;
                      gp.rhs := nth s' (p_0 self) 0 |}).
    unfold gp.holds, gp.on in Hc. simpl in Hc.
    rewrite dot_firstn in Hc by lia. apply Hc.
    apply in_map_iff. exists (np.col s' W, nth s' (p_0 self) 0).
    split; [reflexivity|].
    replace (np.col s' W, nth s' (p_0 self) 0)
      with (nth s' (combine (np.transpose S W) (p_0 self)) ([], 0)).
    + apply nth_In. lia.
    + rewrite combine_nth
        by (unfold np.transpose; rewrite length_map, length_seq; lia).
      f_equal. unfold np.transpose. now rewrite nth_map_seq.
  - intros (Hu & Hnn & Hflow). split; [now split|].
    apply Forall_forall. intros c Hc.
    apply in_map_iff in Hc. destruct Hc as ([r b] & <- & Hin).
    destruct (In_nth _ _ ([], 0) Hin) as (j & Hj & Ej).
    rewrite Hlen in Hj.
    rewrite combine_nth in Ej
      by (unfold np.transpose; rewrite length_map, length_seq; lia).
    injection Ej as <- <-.
    unfold gp.holds, gp.on. simpl.
    rewrite dot_firstn by lia.
    unfold np.transpose. rewrite nth_map_seq by assumption.
    now apply Hflow.
Qed.

Lemma Status_eqb_eq (a b : GRB.Status) :
  GRB.Status_eqb a b = true <-> a = b.
Proof. destruct a, b; simpl; split; congruence. Qed.

Lemma dual_LP_feasible (self : MDP) (u : np.vector) :
  length (p_0 self) = num_states self ->
  gp.feasible (snd (dual_LP self)) u <-> flow_feasible self u.
Proof. exact (bellman_flow_model_feasible self "Dual_LP" u). Qed.

Lemma worst_LP_feasible (self : MDP) (u : np.vector) :
  length (p_0 self) = num_states self ->
  gp.feasible (snd (worst_LP self)) u <-> flow_feasible self u.
Proof. exact (bellman_flow_model_feasible self "Worst" u). Qed.

Lemma flow_objective (self : MDP) (u : np.vector) :
  flow_feasible self u ->
  gp.objective (snd (dual_LP self)) u = np.dot (reward self) u /\
  gp.objective (snd (worst_LP self)) u = np.dot (reward self) u.
Proof.
  intros (Hlen & _). unfold gp.objective, dual_LP, worst_LP. simpl.
  unfold gp.on. simpl. rewrite dot_firstn by lia. now split.
Qed.

(** What the two solves read from the optimiser when they return. *)
Lemma solve_worst_returns (optimize : gp.Model -> gp.Solution) (self : MDP)
      (u : np.matrix) (ret : Q) :
  solve_worst optimize self = Return (u, ret) ->
  gp.Status (optimize (snd (worst_LP self))) = GRB.OPTIMAL /\
  ret = gp.objVal (optimize (snd (worst_LP self))).
Proof.
  unfold solve_worst.
  change (worst_LP self)
    with ((0%nat, (num_states self * num_actions self)%nat),
          snd (worst_LP self)).
  cbv beta iota zeta.
  destruct (GRB.Status_eqb _ GRB.OPTIMAL) eqn:E; simpl; [|discriminate].
  apply Status_eqb_eq in E.
  destruct (np.reshape_F _ _ _ _); simpl; [|discriminate].
  intros H. injection H as _ <-. now split.
Qed.

Lemma solve_putterman_returns (optimize : gp.Model -> gp.Solution)
      (self : MDP) (u : np.matrix) (ret : Q) :
  solve_putterman_dual_LP_for_Opt_policy optimize self = Return (u, ret) ->
  gp.Status (optimize (snd (dual_LP self))) = GRB.OPTIMAL /\
  ret = gp.objVal (optimize (snd (dual_LP self))).
Proof.
  unfold solve_putterman_dual_LP_for_Opt_policy.
  change (dual_LP self)
    with ((0%nat, (num_states self * num_actions self)%nat),
          snd (dual_LP self)).
  cbv beta iota zeta.
  destruct (GRB.Status_eqb _ GRB.OPTIMAL) eqn:E; simpl; [|discriminate].
  apply Status_eqb_eq in E.
  destruct (py_div _ _); simpl; [|discriminate].
  destruct (assert _); simpl; [|discriminate].
  destruct (np.reshape_F _ _ _ _); simpl; [|discriminate].
  intros H. injection H as _ <-. now split.
Qed.

(** C3: with an optimiser that is exact on the two programs, the value
    [solve_worst] returns is at most the value
    [solve_putterman_dual_LP_for_Opt_policy] returns, and the return
    [r @ u] of every point of the Bellman-flow polytope lies between the
    two. *)
Theorem worst_return_below_optimal_return
        (optimize : gp.Model -> gp.Solution) (self : MDP)
        (u_worst u_opt : np.matrix) (worst_ret opt_ret : Q) :
  gp.exact_on optimize (snd (worst_LP self)) ->
  gp.exact_on optimize (snd (dual_LP self)) ->
  length (p_0 self) = num_states self ->
  solve_worst optimize self = Return (u_worst, worst_ret) ->
  solve_putterman_dual_LP_for_Opt_policy optimize self
  = Return (u_opt, opt_ret) ->
  worst_ret <= opt_ret /\
  forall u, flow_feasible self u ->
            worst_ret <= np.dot (reward self) u /\
            np.dot (reward self) u <= opt_ret.
Proof.
  intros Hex_min Hex_max Hp0 Hworst Hopt.
  apply solve_worst_returns in Hworst. destruct Hworst as [Smin ->].
  apply solve_putterman_returns in Hopt. destruct Hopt as [Smax ->].
  destruct (Hex_min Smin) as (Hfeas_min & Hval_min & Hbest_min).
  destruct (Hex_max Smax) as (Hfeas_max & Hval_max & Hbest_max).
  assert (Hsandwich :
            forall u, flow_feasible self u ->
              gp.objVal (optimize (snd (worst_LP self)))
              <= np.dot (reward self) u /\
              np.dot (reward self) u
              <= gp.objVal (optimize (snd (dual_LP self)))).
  { intros u Hu. destruct (flow_objective self u Hu) as [Emax Emin]. split.
    - rewrite <- Emin.
      apply (Hbest_min u). now apply worst_LP_feasible.
    - rewrite <- Emax.
      apply (Hbest_max u). now apply dual_LP_feasible. }
  split; [|exact Hsandwich].
  apply worst_LP_feasible in Hfeas_min; [|exact Hp0].
  destruct (Hsandwich _ Hfeas_min) as [_ Hle].
  destruct (flow_objective self _ Hfeas_min) as [_ Emin].
  rewrite Hval_min, Emin. exact Hle.
Qed.

(** The two programs of the two-action model, solved exactly. *)
Lemma two_action_flow (y : np.vector) :
  flow_feasible two_action_MDP y ->
  exists y0 y1, y = [y0; y1] /\ 0 <= y0 /\ 0 <= y1 /\ y0 + y1 == 2.
Proof.
  intros (Hlen & Hnn & Hflow).
  destruct y as [|y0 [|y1 [|y2 y]]]; try discriminate.
  exists y0, y1. split; [reflexivity|].
  inversion Hnn as [|? ? H0 Hnn']; subst.
  inversion Hnn' as [|? ? H1 _]; subst.
  specialize (Hflow 0%nat (Nat.lt_0_succ 0)).
  unfold np.dot, np.col, np.sum in Hflow. simpl in Hflow.
  repeat split; try assumption. lra.
Qed.

Lemma two_action_exact :
  gp.exact_on two_action_optimize (snd (worst_LP two_action_MDP)) /\
  gp.exact_on two_action_optimize (snd (dual_LP two_action_MDP)).
Proof.
  split; intros _.
  - split; [|split].
    + apply worst_LP_feasible; [reflexivity|].
      split; [reflexivity|]. split.
      * repeat constructor; discriminate.
      * intros [|s'] Hs'; [reflexivity|simpl in Hs'; lia].
    + reflexivity.
    + intros y Hy. apply worst_LP_feasible in Hy; [|reflexivity].
      destruct (flow_objective _ _ Hy) as [_ ->].
      destruct (two_action_flow y Hy) as (y0 & y1 & -> & H0 & H1 & Hsum).
      unfold gp.no_worse. simpl. unfold gp.on, np.dot, np.sum. simpl. lra.
  - split; [|split].
    + apply dual_LP_feasible; [reflexivity|].
      split; [reflexivity|]. split.
      * repeat constructor; discriminate.
      * intros [|s'] Hs'; [reflexivity|simpl in Hs'; lia].
    + reflexivity.
    + intros y Hy. apply dual_LP_feasible in Hy; [|reflexivity].
      destruct (flow_objective _ _ Hy) as [-> _].
      destruct (two_action_flow y Hy) as (y0 & y1 & -> & H0 & H1 & Hsum).
      unfold gp.no_worse. simpl. unfold gp.on, np.dot, np.sum. simpl. lra.
Qed.

(** On the two-action model the worst return is 0, the optimal return 2. *)
Lemma worst_return_below_optimal_return_witness :
  solve_worst two_action_optimize two_action_MDP = Return ([[0; 2]], 0 + 0) /\
  solve_putterman_dual_LP_for_Opt_policy two_action_optimize two_action_MDP
  = Return ([[2; 0]], 1 * 2 + (0 * 0 + 0)) /\
  0 + 0 <= 1 * 2 + (0 * 0 + 0) /\
  forall u, flow_feasible two_action_MDP u ->
            0 + 0 <= np.dot (reward two_action_MDP) u /\
            np.dot (reward two_action_MDP) u <= 1 * 2 + (0 * 0 + 0).
Proof.
  split; [vm_compute; reflexivity|]. split; [vm_compute; reflexivity|].
  apply (worst_return_below_optimal_return two_action_optimize
           two_action_MDP [[0; 2]] [[2; 0]]).
  - exact (proj1 two_action_exact).
  - exact (proj2 two_action_exact).
  - reflexivity.
  - vm_compute. reflexivity.
  - vm_compute. reflexivity.
Defined.

(** ** solve_putterman_dual_LP_for_Opt_policy *)

(** The clamping loop replaces the negative ones among the first [n]
    entries by 0. *)
Lemma clamp_negatives_spec (n : nat) (l : np.vector) :
  (n <= length l)%nat ->
  length (clamp_negatives n l) = length l /\
  forall i, nth i (clamp_negatives n l) 0 =
            if (i <? n)%nat && Qlt_bool (nth i l 0) 0 then 0 else nth i l 0.
Proof.
  unfold clamp_negatives. induction n as [|n IH]; intros Hn.
  - simpl. split; reflexivity.
  - rewrite seq_S, fold_left_app. simpl.
    destruct IH as [Hlen Hent]; [lia|].
    assert (Hn' : nth n (fold_left
                           (fun u_flat i =>
                              if Qlt_bool (nth i u_flat 0) 0
                              then np.setitem i 0 u_flat else u_flat)
                           (seq 0 n) l) 0 = nth n l 0).
    { rewrite Hent. now rewrite Nat.ltb_irrefl. }
    rewrite Hn'. destruct (Qlt_bool (nth n l 0) 0) eqn:Hneg.
    + split; [now rewrite length_setitem|]. intros i.
      rewrite nth_setitem by lia. rewrite Hent.
      destruct (Nat.eqb_spec n i) as [<-|Hne].
      * rewrite Hneg.
        replace (n <? S n)%nat with true
          by (symmetry; apply Nat.ltb_lt; lia). reflexivity.
      * destruct (Nat.ltb_spec i n), (Nat.ltb_spec i (S n));
          try lia; reflexivity.
    + split; [exact Hlen|]. intros i. rewrite Hent.
      destruct (Nat.ltb_spec i n), (Nat.ltb_spec i (S n));
        try lia; try reflexivity.
      assert (i = n) by lia. subst i. simpl. now rewrite Hneg.
Qed.

Lemma clamp_negatives_nonneg (l : np.vector) :
  Forall (Qle 0) (clamp_negatives (length l) l).
Proof.
  destruct (clamp_negatives_spec (length l) l (le_n _)) as [Hlen Hent].
  apply Forall_forall. intros x Hx.
  destruct (In_nth _ _ 0 Hx) as (i & Hi & <-).
  rewrite Hent. rewrite Hlen in Hi.
  replace (i <? length l)%nat with true
    by (symmetry; now apply Nat.ltb_lt).
  simpl. destruct (Qlt_bool (nth i l 0) 0) eqn:E; [lra|].
  unfold Qlt_bool in E. apply negb_false_iff, Qle_bool_iff in E. exact E.
Qed.

Lemma reshape_F_returns {T : Type} (d : T) (n m : nat) (v : list T)
      (M : list (list T)) :
  np.reshape_F d n m v = Return M ->
  length v = (n * m)%nat /\ shape2 n m M /\
  forall i j, (i < n)%nat -> (j < m)%nat ->
              nth j (nth i M []) d = nth (j * n + i) v d.
Proof.
  unfold np.reshape_F. destruct (Nat.eqb_spec (length v) (n * m));
    [|discriminate].
  intros H. injection H as <-. split; [assumption|]. split.
  - split; [now rewrite length_map, length_seq|].
    intros i Hi. rewrite (nth_map_seq _ n i []) by assumption.
    now rewrite length_map, length_seq.
  - intros i j Hi Hj. rewrite (nth_map_seq _ n i []) by assumption.
    now rewrite (nth_map_seq _ m j d).
Qed.

Lemma py_div_returns (x y q : Q) :
  py_div x y = Return q -> ~ y == 0 /\ q = x / y.
Proof.
  unfold py_div. destruct (Qeq_bool y 0) eqn:E; [discriminate|].
  intros H. injection H as <-. split; [|reflexivity].
  intros Hy. apply Qeq_bool_iff in Hy. congruence.
Qed.

(** What the code itself establishes about the [u] it returns: it comes
    from a non-negative vector of S*A entries whose sum is below
    [1/(1-gamma) + 1e-2].  Nothing bounds the sum from below. *)
Lemma solve_putterman_postcondition (optimize : gp.Model -> gp.Solution)
      (self : MDP) (u : np.matrix) (ret : Q) :
  solve_putterman_dual_LP_for_Opt_policy optimize self = Return (u, ret) ->
  exists u_flat,
    np.reshape_F 0 (num_states self) (num_actions self) u_flat = Return u /\
    Forall (Qle 0) u_flat /\
    ~ 1 - gamma self == 0 /\
    np.sum u_flat - 1 / (1 - gamma self) < 1 # 100 /\
    (forall s a, (s < num_states self)%nat -> (a < num_actions self)%nat ->
                 0 <= np.get2 s a u).
Proof.
  unfold solve_putterman_dual_LP_for_Opt_policy.
  change (dual_LP self)
    with ((0%nat, (num_states self * num_actions self)%nat),
          snd (dual_LP self)).
  cbv beta iota zeta.
  set (n := (num_states self * num_actions self)%nat).
  set (x := gp.X_of (0%nat, n) (optimize (snd (dual_LP self)))).
  destruct (GRB.Status_eqb _ GRB.OPTIMAL); cbn [negb]; [|discriminate].
  destruct (py_div 1 (1 - gamma self)) as [target|e] eqn:Hdiv; cbn [bind];
    [|discriminate].
  apply py_div_returns in Hdiv. destruct Hdiv as [Hg ->].
  unfold assert.
  destruct (Qlt_bool (np.sum (clamp_negatives n x) - 1 / (1 - gamma self))
                     (1 # 100)) eqn:Hmass; cbn [bind]; [|discriminate].
  destruct (np.reshape_F 0 (num_states self) (num_actions self)
                         (clamp_negatives n x)) as [M|e] eqn:HM; cbn [bind];
    [|discriminate].
  intros H. injection H as <- _.
  exists (clamp_negatives n x). split; [exact HM|].
  assert (Hxn : length x = n).
  { destruct (reshape_F_returns _ _ _ _ _ HM) as [Hlen _].
    assert (length x <= n)%nat.
    { unfold x, gp.X_of. simpl. rewrite length_firstn. lia. }
    destruct (Nat.eq_dec (length x) n) as [E|E]; [exact E|].
    destruct (clamp_negatives_spec (length x) x (le_n _)) as [_ _].
    assert (Hshort : (length x < n)%nat) by lia.
    exfalso. revert Hlen. unfold clamp_negatives.
    assert (Hkeep : forall k l,
               length (fold_left
                         (fun u_flat i =>
                            if Qlt_bool (nth i u_flat 0) 0
                            then np.setitem i 0 u_flat else u_flat)
                         k l) = length l).
    { induction k as [|i k IHk]; intros l; simpl; [reflexivity|].
      rewrite IHk. destruct (Qlt_bool (nth i l 0) 0);
        [apply length_setitem|reflexivity]. }
    rewrite Hkeep. fold n. lia. }
  assert (Hnn : Forall (Qle 0) (clamp_negatives n x))
    by (rewrite <- Hxn; apply clamp_negatives_nonneg).
  split; [exact Hnn|]. split; [exact Hg|]. split.
  - unfold Qlt_bool in Hmass. apply negb_true_iff in Hmass.
    apply Qnot_le_lt. intros Hle. apply Qle_bool_iff in Hle. congruence.
  - intros s a Hs Ha.
    destruct (reshape_F_returns _ _ _ _ _ HM) as (Hlen & _ & Hent).
    unfold np.get2. rewrite (Hent s a Hs Ha).
    rewrite Forall_forall in Hnn. apply Hnn. apply nth_In.
    rewrite Hlen. nia.
Qed.

(** C1 fails on the code: the mass check is one-sided.  On the valid model
    with one looping state-action pair and discount 0.99999, whose
    occupancy frequency is 100000, an optimiser answer of 99999.95
    satisfies [W.T u = p_0] within 1e-6 and is non-negative; the assertion
    [sum(u) - 1/(1-gamma) < 1e-2] lets it through, and the method returns a
    [u] whose mass is 0.05 away from [1/(1-gamma)]. *)
Theorem dual_LP_mass_check_is_one_sided :
  valid_model near_one_MDP /\
  exists ret,
    solve_putterman_dual_LP_for_Opt_policy (answer_with (9999995 # 100))
                                           near_one_MDP
    = Return ([[9999995 # 100]], ret) /\
    0 <= np.get2 0 0 [[9999995 # 100]] /\
    Qabs (np.dot (np.col 0 (IGammaPAStacked near_one_MDP)) [9999995 # 100]
          - nth 0 (p_0 near_one_MDP) 0) <= 1 # 1000000 /\
    1 / (1 - gamma near_one_MDP) == 100000 /\
    ~ Qabs (np.sum [9999995 # 100] - 1 / (1 - gamma near_one_MDP))
      <= 1 # 100.
Proof.
  split.
  { split; [|split; [|split; [|split; [|split; [|split]]]]].
    - split; [reflexivity|]. intros [|s] Hs; [|simpl in Hs; lia].
      split; [reflexivity|]. intros [|a] Ha; [reflexivity|simpl in Ha; lia].
    - intros [|s] [|a] Hs Ha; simpl in Hs, Ha; try lia; reflexivity.
    - reflexivity.
    - reflexivity.
    - discriminate.
    - reflexivity.
    - vm_compute. reflexivity. }
  eexists. split; [vm_compute; reflexivity|].
  split; [vm_compute; discriminate|].
  split; [vm_compute; discriminate|].
  split; [vm_compute; reflexivity|].
  vm_compute. intros H. apply H. reflexivity.
Qed.

(** ** MDP.__init__ *)

(** On a model with one state-action pair the flow constraint [w u = b]
    has one solution, so reporting it is exact for both programs, whatever
    the reward. *)
Lemma single_pair_exact (self : MDP) (w b u : Q) :
  num_states self = 1%nat -> num_actions self = 1%nat ->
  IGammaPAStacked self = [[w]] -> p_0 self = [b] ->
  ~ w == 0 -> w * u == b -> 0 <= u ->
  gp.optimum (snd (dual_LP self)) (answer_with u (snd (dual_LP self))) /\
  gp.optimum (snd (worst_LP self)) (answer_with u (snd (worst_LP self))).
Proof.
  intros HS HA HW Hp0 Hw Hu Hnn.
  assert (Hlen : length (p_0 self) = num_states self)
    by (rewrite Hp0, HS; reflexivity).
  assert (Hfeas : flow_feasible self [u]).
  { split; [rewrite HS, HA; reflexivity|]. split; [now constructor|].
    rewrite HS, HW, Hp0. intros [|s'] Hs'; [|lia].
    unfold np.dot, np.col, np.sum. simpl. rewrite <- Hu. ring. }
  assert (Hone : forall y, flow_feasible self y ->
                           exists y0, y = [y0] /\ y0 == u).
  { intros y (Hy & _ & Hflow). rewrite HS, HA in Hy.
    destruct y as [|y0 [|y1 y]]; try discriminate.
    exists y0. split; [reflexivity|].
    rewrite HS in Hflow. specialize (Hflow 0%nat (Nat.lt_0_succ 0)).
    rewrite HW, Hp0 in Hflow.
    unfold np.dot, np.col, np.sum in Hflow. simpl in Hflow.
    assert (E : w * y0 == w * u) by (rewrite Hu, <- Hflow; ring).
    apply (Qmult_inj_l y0 u w Hw). exact E. }
  assert (HX : forall m, gp.LB m = [Some 0] ->
                         gp.X (answer_with u m) = [u] /\
                         gp.objVal (answer_with u m) = gp.objective m [u]).
  { intros m Hm. unfold answer_with. rewrite Hm. now split. }
  split.
  - destruct (HX (snd (dual_LP self))) as [EX Eobj].
    { unfold dual_LP, bellman_flow_model, gp.addMConstr. simpl.
      rewrite addConstrs_LB. simpl. now rewrite HS, HA. }
    split; [|split].
    + rewrite EX. now apply dual_LP_feasible.
    + rewrite EX, Eobj. reflexivity.
    + intros y Hy. apply dual_LP_feasible in Hy; [|exact Hlen].
      destruct (Hone y Hy) as (y0 & -> & Ey).
      rewrite Eobj. unfold gp.no_worse, gp.objective. simpl.
      unfold gp.on, np.dot, np.sum. rewrite HS, HA. simpl.
      destruct (reward self) as [|r0 r]; simpl; [lra|].
      rewrite Ey. lra.
  - destruct (HX (snd (worst_LP self))) as [EX Eobj].
    { unfold worst_LP, bellman_flow_model, gp.addMConstr. simpl.
      rewrite addConstrs_LB. simpl. now rewrite HS, HA. }
    split; [|split].
    + rewrite EX. now apply worst_LP_feasible.
    + rewrite EX, Eobj. reflexivity.
    + intros y Hy. apply worst_LP_feasible in Hy; [|exact Hlen].
      destruct (Hone y Hy) as (y0 & -> & Ey).
      rewrite Eobj. unfold gp.no_worse, gp.objective. simpl.
      unfold gp.on, np.dot, np.sum. rewrite HS, HA. simpl.
      destruct (reward self) as [|r0 r]; simpl; [lra|].
      rewrite Ey. lra.
Qed.





Lemma fold_left_snoc {A B : Type} (f : A -> B) (l : list A) (acc : list B) :
  fold_left (fun acc x => acc ++ [f x]) l acc = acc ++ map f l.
Proof.
  revert acc. induction l as [|x l IH]; intros acc; simpl.
  - now rewrite app_nil_r.
  - rewrite IH. now rewrite <- app_assoc.
Qed.

Lemma construct_design_matrix_returns (self : MDP) :
  (0 < num_actions self)%nat ->
  construct_design_matrix self
  = Return (concat
              (map (fun action =>
                      np.msub (np.eye (num_states self))
                              (np.mscale (gamma self)
                                 (map (map (fun pa => nth action pa 0))
                                      (P self))))
                   (actions self))).
Proof.
  intros HA. unfold construct_design_matrix.
  rewrite (fold_left_snoc
             (fun action =>
                np.msub (np.eye (num_states self))
                        (np.mscale (gamma self)
                           (map (map (fun pa => nth action pa 0))
                                (P self))))).
  simpl. unfold actions.
  destruct (num_actions self) as [|A]; [lia|]. reflexivity.
Qed.


Lemma Qlt_bool_iff (x y : Q) : Qlt_bool x y = true <-> x < y.
Proof.
  unfold Qlt_bool. rewrite negb_true_iff. split.
  - intros H. apply Qnot_le_lt. intros Hle.
    apply Qle_bool_iff in Hle. congruence.
  - intros H. apply not_true_iff_false. intros Hle.
    apply Qle_bool_iff in Hle. lra.
Qed.

(** When the dual LP solve returns: the optimiser says OPTIMAL with one
    value per variable, the discount is not 1, and the clamped mass is
    below [1/(1-gamma) + 1e-2]. *)
Lemma solve_putterman_returns_iff (optimize : gp.Model -> gp.Solution)
      (self : MDP) :
  (exists res,
      solve_putterman_dual_LP_for_Opt_policy optimize self = Return res) <->
  gp.Status (optimize (snd (dual_LP self))) = GRB.OPTIMAL /\
  ~ 1 - gamma self == 0 /\
  np.sum (clamp_negatives (num_states self * num_actions self)
            (gp.X_of (fst (dual_LP self)) (optimize (snd (dual_LP self)))))
  - 1 / (1 - gamma self) < 1 # 100 /\
  length (clamp_negatives (num_states self * num_actions self)
            (gp.X_of (fst (dual_LP self)) (optimize (snd (dual_LP self)))))
  = (num_states self * num_actions self)%nat.
Proof.
  unfold solve_putterman_dual_LP_for_Opt_policy.
  change (dual_LP self)
    with ((0%nat, (num_states self * num_actions self)%nat),
          snd (dual_LP self)).
  cbv beta iota zeta. cbn [fst snd].
  set (n := (num_states self * num_actions self)%nat).
  set (x := clamp_negatives n
              (gp.X_of (0%nat, n) (optimize (snd (dual_LP self))))).
  destruct (GRB.Status_eqb (gp.Status (optimize (snd (dual_LP self))))
                           GRB.OPTIMAL) eqn:Hst; cbn [negb].
  2:{ split; [intros [res H]; discriminate|].
      intros [H _]. apply (proj2 (Status_eqb_eq _ _)) in H. congruence. }
  apply Status_eqb_eq in Hst. unfold py_div.
  destruct (Qeq_bool (1 - gamma self) 0) eqn:Hg; cbn [bind].
  { split; [intros [res H]; discriminate|].
    intros (_ & H & _). apply Qeq_bool_iff in Hg. contradiction. }
  assert (Hg' : ~ 1 - gamma self == 0).
  { intros E. apply Qeq_bool_iff in E. congruence. }
  unfold assert.
  destruct (Qlt_bool (np.sum x - 1 / (1 - gamma self)) (1 # 100)) eqn:Hm;
    cbn [bind].
  2:{ split; [intros [res H]; discriminate|].
      intros (_ & _ & H & _). apply Qlt_bool_iff in H. congruence. }
  apply Qlt_bool_iff in Hm. unfold np.reshape_F.
  destruct (Nat.eqb_spec (length x) (num_states self * num_actions self))
    as [Hlen|Hlen]; cbn [bind].
  - split; [intros _; now repeat split|]. intros _. eexists. reflexivity.
  - split; [intros [res H]; discriminate|].
    intros (_ & _ & _ & H). contradiction.
Qed.

Lemma solve_worst_returns_iff (optimize : gp.Model -> gp.Solution)
      (self : MDP) :
  (exists res, solve_worst optimize self = Return res) <->
  gp.Status (optimize (snd (worst_LP self))) = GRB.OPTIMAL /\
  length (gp.X_of (fst (worst_LP self)) (optimize (snd (worst_LP self))))
  = (num_states self * num_actions self)%nat.
Proof.
  unfold solve_worst.
  change (worst_LP self)
    with ((0%nat, (num_states self * num_actions self)%nat),
          snd (worst_LP self)).
  cbv beta iota zeta. cbn [fst snd].
  destruct (GRB.Status_eqb (gp.Status (optimize (snd (worst_LP self))))
                           GRB.OPTIMAL) eqn:Hst; cbn [negb].
  2:{ split; [intros [res H]; discriminate|].
      intros [H _]. apply (proj2 (Status_eqb_eq _ _)) in H. congruence. }
  apply Status_eqb_eq in Hst. unfold np.reshape_F.
  destruct (Nat.eqb_spec
              (length (gp.X_of (0%nat,
                                (num_states self * num_actions self)%nat)
                               (optimize (snd (worst_LP self)))))
              (num_states self * num_actions self)) as [Hlen|Hlen];
    cbn [bind].
  - split; [intros _; now split|]. intros _. eexists. reflexivity.
  - split; [intros [res H]; discriminate|]. intros [_ H]. contradiction.
Qed.



(** ** solve_cheb_part_2 *)

(** A supplied [eps] other than 0 is the one the call returns. *)
Lemma cheb_part_2_returns_supplied_eps
      (optimize : gp.Model -> gp.Solution) (self : MDP)
      (D : list Trajectory) (add_lin_constr add_linf_constr : bool)
      (e : Q) (eps : np.float) (u : np.matrix) (radius ret : Q) :
  ~ e == 0 ->
  solve_cheb_part_2 optimize self D add_lin_constr add_linf_constr (Some e)
  = Return (eps, u, radius, ret) ->
  eps = np.Finite e.
Proof.
  intros He. unfold solve_cheb_part_2.
  destruct (u_hat_all self D) as [u_hat|x]; cbn [bind]; [|discriminate].
  replace (Qeq_bool e 0) with false
    by (symmetry; apply not_true_iff_false; intros E;
        apply Qeq_bool_iff in E; contradiction).
  cbv beta iota zeta delta [gp.addMVar gp.addVar negb]. cbn [bind].
  match goal with
  | |- bind ?m _ = _ -> _ => destruct m; cbn [bind]; [|discriminate]
  end.
  match goal with
  | |- bind ?m _ = _ -> _ => destruct m; cbn [bind]; [|discriminate]
  end.
  match goal with
  | |- (if ?c then _ else _) = _ -> _ => destruct c; [discriminate|]
  end.
  destruct (py_div 1 (1 - gamma self)); cbn [bind]; [|discriminate].
  match goal with
  | |- bind ?m _ = _ -> _ => destruct m; cbn [bind]; [|discriminate]
  end.
  match goal with
  | |- bind ?m _ = _ -> _ => destruct m; cbn [bind]; [|discriminate]
  end.
  intros H. now injection H as <- _ _ _.
Qed.

(** Without a supplied [eps], the call returns the default. *)
Lemma cheb_part_2_returns_default_eps
      (optimize : gp.Model -> gp.Solution) (self : MDP)
      (D : list Trajectory) (add_lin_constr add_linf_constr : bool)
      (eps : np.float) (u : np.matrix) (radius ret : Q) :
  solve_cheb_part_2 optimize self D add_lin_constr add_linf_constr None
  = Return (eps, u, radius, ret) ->
  default_eps self D = Return eps.
Proof.
  unfold solve_cheb_part_2.
  destruct (u_hat_all self D) as [u_hat|x]; cbn [bind]; [|discriminate].
  destruct (default_eps self D) as [eps'|x]; cbn [bind]; [|discriminate].
  cbv beta iota zeta delta [gp.addMVar gp.addVar negb]. cbn [bind].
  match goal with
  | |- bind ?m _ = _ -> _ => destruct m; cbn [bind]; [|discriminate]
  end.
  match goal with
  | |- bind ?m _ = _ -> _ => destruct m; cbn [bind]; [|discriminate]
  end.
  match goal with
  | |- (if ?c then _ else _) = _ -> _ => destruct c; [discriminate|]
  end.
  destruct (py_div 1 (1 - gamma self)); cbn [bind]; [|discriminate].
  match goal with
  | |- bind ?m _ = _ -> _ => destruct m; cbn [bind]; [|discriminate]
  end.
  match goal with
  | |- bind ?m _ = _ -> _ => destruct m; cbn [bind]; [|discriminate]
  end.
  intros H. now injection H as <- _ _ _.
Qed.

(** C7 fails on the code at [eps = 0]: [passed_eps if passed_eps else ...]
    takes 0 for no value.  A call with [eps = 0] is the call with no [eps];
    on the model with one state-action pair and the demonstration that
    visits it once, it returns 2 (the norm 1 of [(u_E - u_hat) @ phi], plus
    1) as the [eps] it used, although the supplied 0 would have excluded
    the point [v = 2] the flow constraint forces. *)
Theorem cheb_part_2_takes_zero_eps_for_none :
  (forall optimize self D add_lin_constr add_linf_constr,
      solve_cheb_part_2 optimize self D add_lin_constr add_linf_constr
                        (Some 0)
      = solve_cheb_part_2 optimize self D add_lin_constr add_linf_constr
                          None) /\
  (exists eps u radius ret,
      solve_cheb_part_2 (answer_with 2) one_pair_MDP [[(0, 0)%Z]]
                        true true (Some 0)
      = Return (np.Finite eps, u, radius, ret) /\
      eps == 2 /\ ~ eps == 0 /\
      default_eps one_pair_MDP [[(0, 0)%Z]] = Return (np.Finite eps) /\
      u = [[2]] /\
      ~ Qabs (np.dot [2] (np.col 0 (phi one_pair_MDP)) - 1) <= 0).
Proof.
  split; [reflexivity|].
  eexists _, _, _, _. split; [vm_compute; reflexivity|].
  split; [reflexivity|]. split; [discriminate|].
  split; [vm_compute; reflexivity|]. split; [reflexivity|].
  vm_compute. intros H. apply H. reflexivity.
Qed.

(** ** The mass of a point of the Bellman-flow polytope *)

Lemma sum_scale (c : Q) (v : list Q) :
  np.sum (np.scale c v) == c * np.sum v.
Proof.
  induction v as [|x v IH]; simpl; [ring|]. rewrite IH. ring.
Qed.

Lemma sum_sub (x y : list Q) :
  length x = length y ->
  np.sum (np.sub x y) == np.sum x - np.sum y.
Proof.
  revert y. induction x as [|a x IH]; intros [|b y] H; simpl in *;
    try discriminate; [ring|].
  unfold np.sub in IH. rewrite IH by lia. ring.
Qed.

Lemma length_sub (x y : list Q) :
  length x = length y -> length (np.sub x y) = length x.
Proof.
  intros H. unfold np.sub. rewrite length_map, length_combine. lia.
Qed.

Lemma sum_indicator (i n k : nat) :
  np.sum (map (fun j => if Nat.eqb i j then 1 else 0) (seq k n))
  == if (k <=? i)%nat && (i <? k + n)%nat then 1 else 0.
Proof.
  revert k. induction n as [|n IH]; intros k; simpl.
  - destruct (Nat.leb_spec k i), (Nat.ltb_spec i (k + 0)); simpl;
      try lia; reflexivity.
  - rewrite IH.
    destruct (Nat.eqb_spec i k) as [->|Hne].
    + replace (S k <=? k)%nat with false
        by (symmetry; apply Nat.leb_gt; lia).
      replace (k <=? k)%nat with true by (symmetry; apply Nat.leb_le; lia).
      replace (k <? k + S n)%nat with true
        by (symmetry; apply Nat.ltb_lt; lia).
      simpl. ring.
    + destruct (Nat.leb_spec (S k) i), (Nat.leb_spec k i),
               (Nat.ltb_spec i (S k + n)), (Nat.ltb_spec i (k + S n));
        simpl; try lia; ring.
Qed.

Lemma map_seq_S {A : Type} (f : nat -> A) (n : nat) :
  map f (seq 0 (S n)) = f 0%nat :: map (fun j => f (S j)) (seq 0 n).
Proof. simpl. now rewrite <- seq_shift, map_map. Qed.

Lemma sum_map_plus {A : Type} (f g : A -> Q) (l : list A) :
  np.sum (map (fun j => f j + g j) l)
  == np.sum (map f l) + np.sum (map g l).
Proof.
  induction l as [|a l IH]; simpl; [ring|]. rewrite IH. ring.
Qed.

Lemma sum_map_zero {A : Type} (l : list A) :
  np.sum (map (fun _ => 0) l) == 0.
Proof. induction l as [|a l IH]; simpl; [ring|]. rewrite IH. ring. Qed.

Lemma sum_map_ext {A : Type} (f g : A -> Q) (l : list A) :
  (forall a, In a l -> f a == g a) ->
  np.sum (map f l) == np.sum (map g l).
Proof.
  induction l as [|a l IH]; intros H; simpl; [ring|].
  rewrite (H a) by now left.
  rewrite IH by (intros; apply H; now right). ring.
Qed.

Lemma sum_nth_scaled (row : list Q) (x : Q) :
  np.sum (map (fun j => nth j row 0 * x) (seq 0 (length row)))
  == np.sum row * x.
Proof.
  induction row as [|a row IH]; [simpl; ring|].
  change (length (a :: row)) with (S (length row)).
  rewrite map_seq_S. simpl. rewrite IH. ring.
Qed.

(** Summing [W.T u] over its entries is weighting [u] by the row sums of
    [W]. *)
Lemma dot_nil_r (x : list Q) : np.dot x [] = 0.
Proof. unfold np.dot. now rewrite combine_nil. Qed.

Lemma sum_cols (S : nat) (W : np.matrix) :
  Forall (fun row => length row = S) W ->
  forall u,
    np.sum (map (fun j => np.dot (np.col j W) u) (seq 0 S))
    == np.dot (map np.sum W) u.
Proof.
  induction 1 as [|row W Hrow _ IH]; intros u.
  - change (np.dot (map np.sum []) u) with 0.
    rewrite (sum_map_ext _ (fun _ => 0)) by reflexivity.
    apply sum_map_zero.
  - destruct u as [|x u].
    + rewrite dot_nil_r.
      rewrite (sum_map_ext _ (fun _ => 0))
        by (intros j _; now rewrite dot_nil_r).
      apply sum_map_zero.
    + change (np.dot (map np.sum (row :: W)) (x :: u))
        with (np.sum row * x + np.dot (map np.sum W) u).
      rewrite (sum_map_ext _ (fun j => nth j row 0 * x
                                       + np.dot (np.col j W) u))
        by reflexivity.
      rewrite sum_map_plus, IH. subst S. rewrite sum_nth_scaled.
      reflexivity.
Qed.

Lemma dot_constant_rows (c : Q) (W : np.matrix) :
  Forall (fun row => np.sum row == c) W ->
  forall u, length u = length W ->
    np.dot (map np.sum W) u == c * np.sum u.
Proof.
  induction 1 as [|row W Hrow _ IH]; intros [|x u] Hu; simpl in Hu;
    try discriminate.
  - unfold np.dot. simpl. ring.
  - unfold np.dot in *. simpl. rewrite IH by lia. rewrite Hrow. ring.
Qed.

Lemma sum_nth_seq (l : list Q) :
  np.sum (map (fun j => nth j l 0) (seq 0 (length l))) == np.sum l.
Proof.
  rewrite (sum_map_ext _ (fun j => nth j l 0 * 1)) by (intros; ring).
  rewrite sum_nth_scaled. ring.
Qed.

(** Every row of the design matrix of a valid model has S entries that sum
    to [1 - gamma], and there are S*A rows. *)
Lemma design_matrix_rows (self : MDP) :
  valid_model self -> (0 < num_actions self)%nat ->
  length (IGammaPAStacked self)
  = (num_states self * num_actions self)%nat /\
  Forall (fun row => length row = num_states self /\
                     np.sum row == 1 - gamma self)
         (IGammaPAStacked self).
Proof.
  intros ([HPlen HProws] & Hstoch & _ & _ & _ & _ & HW) HA.
  rewrite construct_design_matrix_returns in HW by assumption.
  injection HW as HW. rewrite <- HW. clear HW.
  set (S := num_states self) in *. set (A := num_actions self) in *.
  set (block := fun action =>
                  np.msub (np.eye S)
                          (np.mscale (gamma self)
                             (map (map (fun pa => nth action pa 0))
                                  (P self)))).
  assert (Hblock : forall a, (a < A)%nat ->
            length (block a) = S /\
            Forall (fun row => length row = S /\
                               np.sum row == 1 - gamma self) (block a)).
  { intros a Ha. unfold block, np.msub, np.mscale.
    assert (Hl : length (combine (np.eye S)
                           (map (np.scale (gamma self))
                              (map (map (fun pa => nth a pa 0)) (P self))))
                 = S).
    { rewrite length_combine, length_eye, !length_map. lia. }
    split; [now rewrite length_map|].
    apply Forall_forall. intros row Hrow.
    apply in_map_iff in Hrow. destruct Hrow as ([x y] & <- & Hin).
    destruct (In_nth _ _ ([], []) Hin) as (s & Hs & Es).
    rewrite Hl in Hs.
    rewrite combine_nth in Es by (rewrite length_eye, !length_map; lia).
    injection Es as <- <-. simpl.
    rewrite nth_map_lt with (d := []) by (rewrite length_map; lia).
    rewrite nth_map_lt with (d := []) by lia.
    destruct (HProws s Hs) as [Hrow_len _].
    assert (Hlen : length (nth s (np.eye S) [])
                   = length (np.scale (gamma self)
                               (map (fun pa => nth a pa 0)
                                    (nth s (P self) [])))).
    { rewrite eye_row_length by assumption.
      unfold np.scale. now rewrite !length_map. }
    split.
    - rewrite length_sub by exact Hlen. now apply eye_row_length.
    - rewrite sum_sub by exact Hlen. rewrite sum_scale.
      rewrite (Hstoch s a Hs Ha).
      unfold np.eye. rewrite (nth_map_seq _ S s []) by assumption.
      rewrite sum_indicator.
      replace ((0 <=? s)%nat && (s <? 0 + S)%nat) with true
        by (symmetry; apply andb_true_iff; split;
            [apply Nat.leb_le|apply Nat.ltb_lt]; lia).
      ring. }
  unfold actions. fold A.
  assert (Hall : forall n, (n <= A)%nat ->
            length (concat (map block (seq 0 n))) = (S * n)%nat /\
            Forall (fun row => length row = S /\
                               np.sum row == 1 - gamma self)
                   (concat (map block (seq 0 n)))).
  { induction n as [|n IH]; intros Hn.
    - simpl. split; [lia|constructor].
    - rewrite seq_S, map_app, concat_app. simpl. rewrite app_nil_r.
      destruct IH as [IHl IHf]; [lia|].
      destruct (Hblock n) as [Hbl Hbf]; [lia|]. split.
      + rewrite length_app, IHl, Hbl. lia.
      + apply Forall_app. now split. }
  apply Hall. lia.
Qed.

(** In a valid model every point of the Bellman-flow polytope has mass
    exactly [1/(1-gamma)]. *)
Lemma flow_feasible_mass (self : MDP) (u : np.vector) :
  valid_model self -> (0 < num_actions self)%nat ->
  flow_feasible self u ->
  np.sum u == 1 / (1 - gamma self).
Proof.
  intros Hvalid HA (Hlen & _ & Hflow).
  destruct (design_matrix_rows self Hvalid HA) as [HWlen HWrows].
  destruct Hvalid as (_ & _ & Hp0len & Hp0 & _ & Hlt & _).
  assert (Hcols :
            np.sum (map (fun j => np.dot (np.col j (IGammaPAStacked self)) u)
                        (seq 0 (num_states self)))
            == (1 - gamma self) * np.sum u).
  { rewrite (sum_cols (num_states self))
      by (eapply Forall_impl; [|exact HWrows]; now intros row [H _]).
    apply dot_constant_rows; [|lia].
    eapply Forall_impl; [|exact HWrows]. now intros row [_ H]. }
  rewrite (sum_map_ext _ (fun j => nth j (p_0 self) 0)) in Hcols
    by (intros j Hj; apply in_seq in Hj; apply Hflow; lia).
  rewrite <- Hp0len, sum_nth_seq, Hp0 in Hcols.
  rewrite <- (Qmult_1_l (np.sum u)).
  setoid_replace (1 * np.sum u)
    with ((1 - gamma self) * np.sum u / (1 - gamma self))
    by (field; lra).
  rewrite <- Hcols. reflexivity.
Qed.

Lemma clamp_negatives_nonneg_id (l : np.vector) :
  Forall (Qle 0) l -> clamp_negatives (length l) l = l.
Proof.
  intros Hnn.
  destruct (clamp_negatives_spec (length l) l (le_n _)) as [Hlen Hent].
  apply (nth_ext _ _ 0 0 Hlen). intros i Hi. rewrite Hent.
  rewrite Hlen in Hi.
  replace (Qlt_bool (nth i l 0) 0) with false;
    [now rewrite andb_false_r|].
  symmetry. apply not_true_iff_false. intros E. apply Qlt_bool_iff in E.
  rewrite Forall_forall in Hnn.
  specialize (Hnn (nth i l 0) (nth_In _ _ Hi)). lra.
Qed.

(** With an optimiser that is exact on the dual LP of a valid model, a
    status of OPTIMAL makes the method return, and what it returns is an
    occupancy frequency in exact arithmetic: non-negative, on the flow
    polytope, of mass [1/(1-gamma)], and optimal. *)
Lemma exact_dual_solve_returns_occupancy_frequency
      (optimize : gp.Model -> gp.Solution) (self : MDP) :
  valid_model self -> (0 < num_actions self)%nat ->
  gp.exact_on optimize (snd (dual_LP self)) ->
  gp.Status (optimize (snd (dual_LP self))) = GRB.OPTIMAL ->
  exists u ret u_flat,
    solve_putterman_dual_LP_for_Opt_policy optimize self = Return (u, ret) /\
    np.reshape_F 0 (num_states self) (num_actions self) u_flat = Return u /\
    flow_feasible self u_flat /\
    np.sum u_flat == 1 / (1 - gamma self) /\
    ret == np.dot (reward self) u_flat.
Proof.
  intros Hvalid HA Hexact Hst.
  destruct (Hexact Hst) as (Hfeas & Hval & _).
  pose proof Hvalid as (_ & _ & Hp0len & _ & _ & Hlt & _).
  apply dual_LP_feasible in Hfeas; [|exact Hp0len].
  pose proof (flow_feasible_mass self _ Hvalid HA Hfeas) as Hmass.
  destruct (flow_objective self _ Hfeas) as [Hobj _].
  destruct Hfeas as (Hlen & Hnn & Hflow).
  set (x := gp.X (optimize (snd (dual_LP self)))) in *.
  assert (HX : clamp_negatives (num_states self * num_actions self)
                 (gp.X_of (fst (dual_LP self))
                          (optimize (snd (dual_LP self)))) = x).
  { unfold gp.X_of.
    change (fst (dual_LP self))
      with (0%nat, (num_states self * num_actions self)%nat).
    cbn [fst snd skipn]. fold x. rewrite <- Hlen, firstn_all.
    now apply clamp_negatives_nonneg_id. }
  destruct (proj2 (solve_putterman_returns_iff optimize self))
    as [[u ret] Hret].
  { rewrite HX. split; [exact Hst|]. split; [lra|].
    split; [rewrite Hmass; lra|exact Hlen]. }
  exists u, ret, x. split; [exact Hret|].
  pose proof (solve_putterman_returns optimize self u ret Hret)
    as [_ Eret].
  destruct (solve_putterman_postcondition optimize self u ret Hret)
    as (u_flat & Hre & _).
  revert Hret. unfold solve_putterman_dual_LP_for_Opt_policy.
  change (dual_LP self)
    with ((0%nat, (num_states self * num_actions self)%nat),
          snd (dual_LP self)).
  cbv beta iota zeta.
  change (gp.X_of (0%nat, (num_states self * num_actions self)%nat)
                  (optimize (snd (dual_LP self))))
    with (gp.X_of (fst (dual_LP self)) (optimize (snd (dual_LP self)))).
  rewrite HX.
  destruct (GRB.Status_eqb _ GRB.OPTIMAL); cbn [negb]; [|discriminate].
  destruct (py_div 1 (1 - gamma self)); cbn [bind]; [|discriminate].
  destruct (assert _); cbn [bind]; [|discriminate].
  destruct (np.reshape_F 0 (num_states self) (num_actions self) x)
    as [M|e] eqn:HM; cbn [bind]; [|discriminate].
  intros H. injection H as <- _.
  split; [reflexivity|]. split; [now repeat split|].
  split; [exact Hmass|]. rewrite Eret, Hval, Hobj. reflexivity.
Qed.

(** The two-action model is valid, and its exactly solved dual LP returns
    the occupancy frequency [[2, 0]] of mass 2 = 1/(1 - 1/2). *)
Lemma exact_dual_solve_returns_occupancy_frequency_witness :
  valid_model two_action_MDP /\
  exists u ret u_flat,
    solve_putterman_dual_LP_for_Opt_policy two_action_optimize
                                           two_action_MDP
    = Return (u, ret) /\
    np.reshape_F 0 1 2 u_flat = Return u /\
    flow_feasible two_action_MDP u_flat /\
    np.sum u_flat == 1 / (1 - (1 # 2)) /\
    ret == np.dot (reward two_action_MDP) u_flat.
Proof.
  assert (Hvalid : valid_model two_action_MDP).
  { split; [|split; [|split; [|split; [|split; [|split]]]]].
    - split; [reflexivity|]. intros [|s] Hs; [|simpl in Hs; lia].
      split; [reflexivity|]. intros [|a] Ha; [reflexivity|simpl in Ha; lia].
    - intros [|s] [|[|a]] Hs Ha; simpl in Hs, Ha; try lia; reflexivity.
    - reflexivity.
    - reflexivity.
    - discriminate.
    - reflexivity.
    - vm_compute. reflexivity. }
  split; [exact Hvalid|].
  apply (exact_dual_solve_returns_occupancy_frequency two_action_optimize
           two_action_MDP Hvalid).
  - simpl. lia.
  - exact (proj2 two_action_exact).
  - reflexivity.
Defined.

(** A supplied [eps] of 1/2 on the one-pair model is returned as is. *)
Lemma cheb_part_2_returns_supplied_eps_witness :
  ~ (1 # 2) == 0 /\
  solve_cheb_part_2 (answer_with 2) one_pair_MDP [[(0, 0)%Z]] true false
                    (Some (1 # 2))
  = Return (np.Finite (1 # 2), [[2]], 0 + 0, 2 * 1 + 0) /\
  np.Finite (1 # 2) = np.Finite (1 # 2).
Proof.
  assert (Hne : ~ (1 # 2) == 0) by discriminate.
  assert (Hrun : solve_cheb_part_2 (answer_with 2) one_pair_MDP
                   [[(0, 0)%Z]] true false (Some (1 # 2))
                 = Return (np.Finite (1 # 2), [[2]], 0 + 0, 2 * 1 + 0))
    by (vm_compute; reflexivity).
  split; [exact Hne|]. split; [exact Hrun|].
  exact (cheb_part_2_returns_supplied_eps (answer_with 2) one_pair_MDP
           [[(0, 0)%Z]] true false (1 # 2) (np.Finite (1 # 2)) [[2]]
           (0 + 0) (2 * 1 + 0) Hne Hrun).
Defined.

(** ** The example models

    Each is the object the constructor returns on its parameters, with an
    optimiser that reports the optimum of the programs it is given. *)
Lemma example_models_constructed :
  __init__ (answer_with 2) inv_1x1 1 1 1 [[[1]]] [[1]] [1] (1 # 2) [1]
           constant_half
  = Return (one_pair_MDP, constant_half) /\
  __init__ two_action_optimize inv_1x1 1 2 1 [[[1; 1]]] [[1]; [0]] [1]
           (1 # 2) [1; 0] constant_half
  = Return (two_action_MDP, constant_half) /\
  __init__ (answer_with 100000) inv_1x1 1 1 1 [[[1]]] [[1]] [1]
           (99999 # 100000) [1] constant_half
  = Return (near_one_MDP, constant_half).
Proof. repeat split; vm_compute; reflexivity. Qed.

Lemma example_optimisers_exact :
  (gp.optimum (snd (dual_LP one_pair_MDP))
              (answer_with 2 (snd (dual_LP one_pair_MDP))) /\
   gp.optimum (snd (worst_LP one_pair_MDP))
              (answer_with 2 (snd (worst_LP one_pair_MDP)))) /\
  (gp.optimum (snd (dual_LP near_one_MDP))
              (answer_with 100000 (snd (dual_LP near_one_MDP))) /\
   gp.optimum (snd (worst_LP near_one_MDP))
              (answer_with 100000 (snd (worst_LP near_one_MDP)))).
Proof.
  split.
  - apply (single_pair_exact one_pair_MDP (1 # 2) 1 2);
      try reflexivity; discriminate.
  - apply (single_pair_exact near_one_MDP (1 # 100000) 1 100000);
      try reflexivity; discriminate.
Qed.
